(** * api/kv: key/value source loading

    A shallow embedding of [src/api/kv/kv.go] (package [kv]) and the
    properties of its parsers and of [Load].

    Go strings and byte slices are sequences of bytes: both are modelled by
    [string] (a list of 8-bit [ascii]).  Go [int] results are [Z].  A Go
    function returning [(values..., error)] returns a tuple whose last
    component is an [option errors.error] ([None] is Go's [nil]). *)

From Stdlib Require Import String Ascii List ZArith Lia Bool.
From Stdlib Require Import DecimalString.
Import ListNotations.

Local Open Scope string_scope.
Local Open Scope Z_scope.

(** * The parts of the Go standard library that kv.go calls *)

(** The one-byte separators and cut sets of kv.go. *)
Definition byte := ascii.
Definition dquote : byte := "034"%char.
Definition squote : byte := "039"%char.
Definition eq_sign : byte := "="%char.
Definition slash : byte := "/"%char.
Definition hash : byte := "#"%char.

(** The cut set of [parseLiteralSource]: the double and the single quote. *)
Definition quoteCutset : string := String dquote (String squote "").

Definition byte_val (b : byte) : Z := Z.of_N (N_of_ascii b).

Definition len (s : string) : Z := Z.of_nat (String.length s).

Fixpoint inb (b : byte) (cutset : string) : bool :=
  match cutset with
  | EmptyString => false
  | String c rest => Ascii.eqb b c || inb b rest
  end.

Module strings.

(** [strings.HasPrefix(s, prefix)]. *)
Fixpoint HasPrefix (s pre : string) {struct pre} : bool :=
  match pre, s with
  | EmptyString, _ => true
  | String _ _, EmptyString => false
  | String p pre', String c s' => Ascii.eqb c p && HasPrefix s' pre'
  end.

(** [strings.HasSuffix(s, suffix)]. *)
Fixpoint HasSuffix (s suf : string) : bool :=
  String.eqb s suf ||
  match s with
  | EmptyString => false
  | String _ s' => HasSuffix s' suf
  end.

(** [strings.TrimPrefix(s, prefix)]: [s] without the leading [prefix], or
    [s] itself when it does not start with [prefix]. *)
Definition TrimPrefix (s pre : string) : string :=
  if HasPrefix s pre
  then String.substring (String.length pre)
                        (String.length s - String.length pre) s
  else s.

(** [strings.TrimSuffix(s, suffix)]. *)
Definition TrimSuffix (s suf : string) : string :=
  if HasSuffix s suf
  then String.substring 0 (String.length s - String.length suf) s
  else s.

(** [strings.Count(s, sep)] for a one-byte [sep]. *)
Fixpoint Count (s : string) (sep : byte) : Z :=
  match s with
  | EmptyString => 0
  | String c s' => (if Ascii.eqb c sep then 1 else 0) + Count s' sep
  end.

(** [strings.Index(s, sep)] for a one-byte [sep]: the index of the first
    occurrence, [-1] when there is none. *)
Fixpoint Index (s : string) (sep : byte) : Z :=
  match s with
  | EmptyString => -1
  | String c s' =>
      if Ascii.eqb c sep then 0
      else let i := Index s' sep in if i <? 0 then -1 else i + 1
  end.

(** [strings.SplitN(s, sep, n)] for a one-byte [sep] and [n >= 0]: at most
    [n] pieces, the last one being the unsplit remainder. *)
Fixpoint SplitN (s : string) (sep : byte) (n : nat) {struct s}
  : list string :=
  match n with
  | O => []
  | S O => [s]
  | S (S _ as n') =>
      match s with
      | EmptyString => [EmptyString]
      | String c s' =>
          if Ascii.eqb c sep then EmptyString :: SplitN s' sep n'
          else match SplitN s' sep n with
               | h :: t => String c h :: t
               | [] => [String c EmptyString]
               end
      end
  end.

(** [strings.Split(s, sep)] for a one-byte [sep]: all the pieces. *)
Fixpoint Split (s : string) (sep : byte) : list string :=
  match s with
  | EmptyString => [EmptyString]
  | String c s' =>
      if Ascii.eqb c sep then EmptyString :: Split s' sep
      else match Split s' sep with
           | h :: t => String c h :: t
           | [] => [String c EmptyString]
           end
  end.

(** [strings.TrimLeft(s, cutset)] for an ASCII [cutset]: drops every
    leading byte that belongs to the cut set. *)
Fixpoint TrimLeft (s cutset : string) : string :=
  match s with
  | EmptyString => EmptyString
  | String c s' => if inb c cutset then TrimLeft s' cutset else s
  end.

(** [strings.TrimRight(s, cutset)] for an ASCII [cutset]: drops every
    trailing byte that belongs to the cut set. *)
Fixpoint TrimRight (s cutset : string) : string :=
  match s with
  | EmptyString => EmptyString
  | String c s' =>
      match TrimRight s' cutset with
      | EmptyString =>
          if inb c cutset then EmptyString else String c EmptyString
      | String _ _ as t => String c t
      end
  end.

(** [strings.Trim(s, cutset)] for an ASCII [cutset]. *)
Definition Trim (s cutset : string) : string :=
  TrimLeft (TrimRight s cutset) cutset.

End strings.

Module path.

(** The part of [s] after its last slash ([s] itself without one). *)
Fixpoint afterLastSlash (s : string) : string :=
  match s with
  | EmptyString => EmptyString
  | String c s' =>
      if 0 <? strings.Count s' slash then afterLastSlash s'
      else if Ascii.eqb c slash then s' else s
  end.

(** [path.Base(path)]: the last element of the path, after removing
    trailing slashes; ["."] for the empty path and ["/"] for a path of
    slashes only. *)
Definition Base (p : string) : string :=
  if String.eqb p "" then "."
  else
    let p := afterLastSlash (strings.TrimRight p "/") in
    if String.eqb p "" then "/" else p.

End path.

Module errors.

(** Go errors, as far as kv.go builds them: a message ([errors.New],
    [fmt.Errorf], and whatever the collaborators return), or an error
    wrapped with a message ([errors.Wrap] of github.com/pkg/errors). *)
Inductive error : Type :=
| New (msg : string)
| Wrap (cause : error) (msg : string).

(** [err.Error()]. *)
Fixpoint Error (e : error) : string :=
  match e with
  | New msg => msg
  | Wrap cause msg => msg ++ ": " ++ Error cause
  end.

End errors.

Module fmt.

(** [%d] of an [int]. *)
Definition d_int (n : Z) : string :=
  NilZero.string_of_int (Z.to_int n).

Fixpoint join (l : list string) (sep : string) : string :=
  match l with
  | [] => ""
  | [x] => x
  | x :: rest => x ++ sep ++ join rest sep
  end.

(** [%v] of a [[]string]: the elements between brackets, separated by
    spaces. *)
Definition v_strings (l : list string) : string :=
  "[" ++ join l " " ++ "]".

(** [%d] of a [[]byte]: the decimal values of the bytes between
    brackets. *)
Definition d_bytes (s : string) : string :=
  "[" ++ join (map (fun b => d_int (byte_val b))
                   (list_ascii_of_string s)) " " ++ "]".

(** [fmt.Errorf] with the message already formatted. *)
Definition Errorf (msg : string) : errors.error := errors.New msg.

End fmt.

(** * kv.go: the two source parsers *)

(** [parseFileSource]: the key and file path of a file source.  The
    [default] branch indexes [components] at 0 and 1;
    [parseFileSource_components] shows both are in range there. *)
Definition parseFileSource (source : string)
  : string * string * option errors.error :=
  let numSeparators := strings.Count source eq_sign in
  if numSeparators =? 0 then
    (path.Base source, source, None)
  else if (numSeparators =? 1) && strings.HasPrefix source "=" then
    ("", "", Some (fmt.Errorf ("key name for file path "
                               ++ strings.TrimPrefix source "="
                               ++ " missing")))
  else if (numSeparators =? 1) && strings.HasSuffix source "=" then
    ("", "", Some (fmt.Errorf ("file path for key name "
                               ++ strings.TrimSuffix source "="
                               ++ " missing")))
  else if numSeparators >? 1 then
    ("", "", Some (errors.New "key names or file paths cannot contain '='"))
  else
    let components := strings.Split source eq_sign in
    (nth 0 components "", nth 1 components "", None).

(** [parseLiteralSource]: the key and value of a [key=value] literal. *)
Definition parseLiteralSource (source : string)
  : string * string * option errors.error :=
  if strings.Index source eq_sign =? 0 then
    ("", "", Some (fmt.Errorf ("invalid literal source " ++ source
                               ++ ", expected key=value")))
  else
    let items := strings.SplitN source eq_sign 2 in
    match items with
    | [k; v] =>
        (k, strings.Trim v quoteCutset, None)
    | _ =>
        ("", "", Some (fmt.Errorf ("invalid literal source " ++ source
                                   ++ ", expected key=value")))
    end.

Module utf8.

Definition RuneError : Z := 0xFFFD.
Definition RuneSelf : Z := 0x80.

Definition in_range (b : byte) (lo hi : Z) : bool :=
  (lo <=? byte_val b) && (byte_val b <=? hi).

(** For a leading byte of a multi-byte sequence: the length of the sequence
    and the range accepted for its second byte (the tables [first] and
    [acceptRanges] of unicode/utf8); [None] for a byte that starts no
    sequence. *)
Definition lead (b0 : byte) : option (Z * Z * Z) :=
  let x := byte_val b0 in
  if x <? 0xC2 then None
  else if x <=? 0xDF then Some (2, 0x80, 0xBF)
  else if x =? 0xE0 then Some (3, 0xA0, 0xBF)
  else if x =? 0xED then Some (3, 0x80, 0x9F)
  else if x <=? 0xEF then Some (3, 0x80, 0xBF)
  else if x =? 0xF0 then Some (4, 0x90, 0xBF)
  else if x <=? 0xF3 then Some (4, 0x80, 0xBF)
  else if x =? 0xF4 then Some (4, 0x80, 0x8F)
  else None.

Definition cont (b : byte) : Z := Z.land (byte_val b) 0x3F.

(** [utf8.DecodeRune(p)]: the first rune of [p] and its width in bytes;
    [(RuneError, 1)] for an invalid encoding, [(RuneError, 0)] for the
    empty input. *)
Definition DecodeRune (p : string) : Z * Z :=
  match p with
  | EmptyString => (RuneError, 0)
  | String b0 p1 =>
      if byte_val b0 <? RuneSelf then (byte_val b0, 1)
      else
        match lead b0 with
        | None => (RuneError, 1)
        | Some (sz, lo, hi) =>
            match p1 with
            | EmptyString => (RuneError, 1)
            | String b1 p2 =>
                if negb (in_range b1 lo hi) then (RuneError, 1)
                else if sz <=? 2 then
                  (Z.lor (Z.shiftl (Z.land (byte_val b0) 0x1F) 6) (cont b1),
                   2)
                else
                  match p2 with
                  | EmptyString => (RuneError, 1)
                  | String b2 p3 =>
                      if negb (in_range b2 0x80 0xBF) then (RuneError, 1)
                      else if sz <=? 3 then
                        (Z.lor (Z.shiftl (Z.land (byte_val b0) 0x0F) 12)
                           (Z.lor (Z.shiftl (cont b1) 6) (cont b2)), 3)
                      else
                        match p3 with
                        | EmptyString => (RuneError, 1)
                        | String b3 _ =>
                            if negb (in_range b3 0x80 0xBF)
                            then (RuneError, 1)
                            else
                              (Z.lor
                                 (Z.shiftl (Z.land (byte_val b0) 0x07) 18)
                                 (Z.lor (Z.shiftl (cont b1) 12)
                                    (Z.lor (Z.shiftl (cont b2) 6)
                                       (cont b3))), 4)
                        end
                  end
            end
        end
  end.

(** [utf8.Valid(p)]: [p] consists entirely of valid UTF-8 encoded runes. *)
Fixpoint Valid (p : string) : bool :=
  match p with
  | EmptyString => true
  | String b0 p1 =>
      if byte_val b0 <? RuneSelf then Valid p1
      else
        match lead b0 with
        | None => false
        | Some (sz, lo, hi) =>
            match p1 with
            | EmptyString => false
            | String b1 p2 =>
                in_range b1 lo hi &&
                (if sz <=? 2 then Valid p2
                 else
                   match p2 with
                   | EmptyString => false
                   | String b2 p3 =>
                       in_range b2 0x80 0xBF &&
                       (if sz <=? 3 then Valid p3
                        else
                          match p3 with
                          | EmptyString => false
                          | String b3 p4 =>
                              in_range b3 0x80 0xBF && Valid p4
                          end)
                   end)
            end
        end
  end.

End utf8.

Module unicode.

(** [unicode.IsSpace(r)]: the Unicode White_Space property. *)
Definition IsSpace (r : Z) : bool :=
  if r <=? 0xFF then
    ((0x09 <=? r) && (r <=? 0x0D)) || (r =? 0x20) || (r =? 0x85)
    || (r =? 0xA0)
  else
    (r =? 0x1680) || ((0x2000 <=? r) && (r <=? 0x200A))
    || (r =? 0x2028) || (r =? 0x2029) || (r =? 0x202F) || (r =? 0x205F)
    || (r =? 0x3000).

End unicode.

Module bytes.

Definition HasPrefix (s pre : string) : bool := strings.HasPrefix s pre.

Definition TrimPrefix (s pre : string) : string := strings.TrimPrefix s pre.

(** [bytes.TrimLeftFunc(s, f)]: [s] without its leading runes that satisfy
    [f].  The loop of [indexFunc] decodes one rune at [start] and moves
    [start] by its width. *)
Fixpoint TrimLeftFunc (s : string) (f : Z -> bool) : string :=
  match s with
  | EmptyString => EmptyString
  | String b0 s1 =>
      let '(r, wid) :=
        if byte_val b0 <? utf8.RuneSelf then (byte_val b0, 1)
        else utf8.DecodeRune s in
      if negb (f r) then s
      else
        match s1 with
        | String _ (String _ (String _ s4 as s3) as s2) =>
            if wid =? 1 then TrimLeftFunc s1 f
            else if wid =? 2 then TrimLeftFunc s2 f
            else if wid =? 3 then TrimLeftFunc s3 f
            else TrimLeftFunc s4 f
        | String _ (String _ s3 as s2) =>
            if wid =? 1 then TrimLeftFunc s1 f
            else if wid =? 2 then TrimLeftFunc s2 f
            else TrimLeftFunc s3 f
        | String _ s2 =>
            if wid =? 1 then TrimLeftFunc s1 f else TrimLeftFunc s2 f
        | EmptyString => EmptyString
        end
  end.

End bytes.

Module bufio.

Definition newline : byte := "010"%char.
Definition cr : byte := "013"%char.

(** A token must fit, with its newline, in the scanner's buffer. *)
Definition MaxScanTokenSize : Z := 64 * 1024.

(** The lines of [data], newline-terminated or last. *)
Fixpoint rawLines (data : string) : list string :=
  match data with
  | EmptyString => []
  | String c rest =>
      if Ascii.eqb c newline then EmptyString :: rawLines rest
      else match rawLines rest with
           | h :: t => String c h :: t
           | [] => [String c EmptyString]
           end
  end.

(** [dropCR]: drops one terminal carriage return. *)
Fixpoint dropCR (data : string) : string :=
  match data with
  | EmptyString => EmptyString
  | String c EmptyString =>
      if Ascii.eqb c cr then EmptyString else data
  | String c rest => String c (dropCR rest)
  end.

Fixpoint fitting (lines : list string) : list string :=
  match lines with
  | [] => []
  | l :: rest => if len l <? MaxScanTokenSize then l :: fitting rest else []
  end.

(** The tokens [scanner.Bytes()] takes, one per successful
    [scanner.Scan()], for a scanner with the default split function
    [ScanLines] and the default buffer: scanning stops at the end of the
    input, and also at a line too long for the buffer. *)
Definition scanLines (content : string) : list string :=
  map dropCR (fitting (rawLines content)).

End bufio.

Module armor.

(** [armor.Header] of filippo.io/age/armor. *)
Definition Header : string := "-----BEGIN AGE ENCRYPTED FILE-----".

End armor.

Module types.

Record Pair : Type := { Key : string; Value : string }.

Record KvPairSources : Type := {
  LiteralSources : list string;
  FileSources : list string;
  EnvSources : list string;
  AgeIdentitySources : list string
}.

End types.

Import types.

(** * kv.go: the loader *)

Definition utf8bom : string := String "239" (String "187" (String "191" "")).

Definition error := errors.error.

Section Loader.

(** The collaborators of the loader: the two file loaders and the validator
    of the [loader] struct, the process environment and the file system of
    package [os], [filepath.Abs], and the age functions and the functions of
    this package that kv.go calls and does not define. *)
Variable ldr_Load : string -> string * option error.
Variable rootLdr_Load : string -> string * option error.
Variable validator_IsEnvVarName : string -> option error.
Variable environ : string -> option string.
Variable filepath_Abs : string -> string * option error.
Variable ioutil_ReadFile : string -> string * option error.
Variable Identity : Type.
Variable age_ParseIdentities : string -> list Identity * option error.
Variable parseSSHIdentity : string -> string -> list Identity * option error.
Variable decryptInlineYAMLWithAge :
  string -> list Identity -> string * option error.
Variable decryptValueWithAge :
  string -> list Identity -> string * option error.

(** [os.Getenv(key)]: the value of the variable, empty when it is unset. *)
Definition os_Getenv (key : string) : string :=
  match environ key with
  | Some v => v
  | None => ""
  end.

(** The loop body of [getAgeIdentities] for one explicit source. *)
Definition getAgeIdentities_body (path : string)
  : list Identity * option error :=
  let '(path, err) := filepath_Abs path in
  match err with
  | Some e => ([], Some e)
  | None =>
      let '(content, err) := rootLdr_Load path in
      match err with
      | Some e => ([], Some e)
      | None =>
          let '(id, err) := age_ParseIdentities content in
          match err with
          | Some e => ([], Some e)
          | None => (id, None)
          end
      end
  end.

Fixpoint getAgeIdentities_explicit (sources : list string)
  (ids : list Identity) : list Identity * option error :=
  match sources with
  | [] => (ids, None)
  | path :: rest =>
      let '(id, err) := getAgeIdentities_body path in
      match err with
      | Some e => ([], Some e)
      | None => getAgeIdentities_explicit rest (ids ++ id)
      end
  end.

(** The second loop of [getAgeIdentities], over the well-known SSH keys:
    a key that cannot be read or parsed is skipped. *)
Fixpoint getAgeIdentities_ssh (paths : list string) (ids : list Identity)
  : list Identity :=
  match paths with
  | [] => ids
  | path :: rest =>
      let '(content, err) := ioutil_ReadFile path in
      match err with
      | Some _ => getAgeIdentities_ssh rest ids
      | None =>
          let '(sshids, err) := parseSSHIdentity path content in
          match err with
          | Some _ => getAgeIdentities_ssh rest ids
          | None => getAgeIdentities_ssh rest (ids ++ sshids)
          end
      end
  end.

Definition getAgeIdentities (sources : list string)
  : list Identity * option error :=
  let '(ids, err) := getAgeIdentities_explicit sources [] in
  match err with
  | Some e => ([], Some e)
  | None =>
      (getAgeIdentities_ssh
         [os_Getenv "HOME" ++ "/.ssh/id_rsa";
          os_Getenv "HOME" ++ "/.ssh/id_ed25519"] ids, None)
  end.

(** The loop body of [keyValuesFromLiteralSources] for one source. *)
Definition keyValuesFromLiteralSources_body (s : string)
  (ids : list Identity) : Pair * option error :=
  let '(k, v, err) := parseLiteralSource s in
  match err with
  | Some e => (Build_Pair "" "", Some e)
  | None =>
      if strings.HasSuffix k ".age" then
        let k := strings.TrimRight k ".age" in
        let content := v in
        let '(content, err) :=
          if strings.HasSuffix k ".yaml" || strings.HasSuffix k ".yml"
          then decryptInlineYAMLWithAge content ids
          else decryptValueWithAge content ids in
        match err with
        | Some e => (Build_Pair "" "", Some e)
        | None => (Build_Pair k content, None)
        end
      else (Build_Pair k v, None)
  end.

Fixpoint keyValuesFromLiteralSources_loop (sources : list string)
  (ids : list Identity) (kvs : list Pair) : list Pair * option error :=
  match sources with
  | [] => (kvs, None)
  | s :: rest =>
      let '(kv, err) := keyValuesFromLiteralSources_body s ids in
      match err with
      | Some e => ([], Some e)
      | None => keyValuesFromLiteralSources_loop rest ids (kvs ++ [kv])
      end
  end.

Definition keyValuesFromLiteralSources (sources : list string)
  (ids : list Identity) : list Pair * option error :=
  keyValuesFromLiteralSources_loop sources ids [].

(** The loop body of [keyValuesFromFileSources] for one source. *)
Definition keyValuesFromFileSources_body (s : string)
  (ids : list Identity) : Pair * option error :=
  let '(k, fPath, err) := parseFileSource s in
  match err with
  | Some e => (Build_Pair "" "", Some e)
  | None =>
      let '(content, err) := ldr_Load fPath in
      match err with
      | Some e => (Build_Pair "" "", Some e)
      | None =>
          if strings.HasSuffix fPath ".age" then
            let k := strings.TrimRight k ".age" in
            let '(content, err) :=
              if (strings.HasSuffix k ".yaml" || strings.HasSuffix k ".yml")
                 && negb (bytes.HasPrefix content armor.Header)
              then decryptInlineYAMLWithAge content ids
              else decryptValueWithAge content ids in
            match err with
            | Some e => (Build_Pair "" "", Some e)
            | None => (Build_Pair k content, None)
            end
          else (Build_Pair k content, None)
      end
  end.

Fixpoint keyValuesFromFileSources_loop (sources : list string)
  (ids : list Identity) (kvs : list Pair) : list Pair * option error :=
  match sources with
  | [] => (kvs, None)
  | s :: rest =>
      let '(kv, err) := keyValuesFromFileSources_body s ids in
      match err with
      | Some e => ([], Some e)
      | None => keyValuesFromFileSources_loop rest ids (kvs ++ [kv])
      end
  end.

Definition keyValuesFromFileSources (sources : list string)
  (ids : list Identity) : list Pair * option error :=
  keyValuesFromFileSources_loop sources ids [].

(** [keyValuesFromLine]: the pair of one line of an env file, with a blank
    key when the line is empty or a comment. *)
Definition keyValuesFromLine (line : string) (currentLine : Z)
  : Pair * option error :=
  let kv := Build_Pair "" "" in
  if negb (utf8.Valid line) then
    (kv, Some (fmt.Errorf ("line " ++ fmt.d_bytes line
                           ++ " has invalid utf8 bytes : " ++ line)))
  else
    let line :=
      if currentLine =? 0 then bytes.TrimPrefix line utf8bom else line in
    let line := bytes.TrimLeftFunc line unicode.IsSpace in
    match line with
    | EmptyString => (kv, None)
    | String c _ =>
        if Ascii.eqb c hash then (kv, None)
        else
          let data := strings.SplitN line eq_sign 2 in
          let key := nth 0 data "" in
          match validator_IsEnvVarName key with
          | Some err => (kv, Some err)
          | None =>
              let value :=
                if Z.of_nat (List.length data) =? 2 then nth 1 data ""
                else os_Getenv key in
              (Build_Pair key value, None)
          end
    end.

(** The loop of [keyValuesFromLines] over the scanned lines. *)
Fixpoint keyValuesFromLines_loop (lines : list string) (currentLine : Z)
  (kvs : list Pair) : list Pair * option error :=
  match lines with
  | [] => (kvs, None)
  | scannedBytes :: rest =>
      let '(kv, err) := keyValuesFromLine scannedBytes currentLine in
      match err with
      | Some e => ([], Some e)
      | None =>
          let currentLine := currentLine + 1 in
          if len (Key kv) =? 0
          then keyValuesFromLines_loop rest currentLine kvs
          else keyValuesFromLines_loop rest currentLine (kvs ++ [kv])
      end
  end.

Definition keyValuesFromLines (content : string)
  : list Pair * option error :=
  keyValuesFromLines_loop (bufio.scanLines content) 0 [].

(** The loop body of [keyValuesFromEnvFiles] for one path. *)
Definition keyValuesFromEnvFiles_body (p : string) (ids : list Identity)
  : list Pair * option error :=
  let '(content, err) := ldr_Load p in
  match err with
  | Some e => ([], Some e)
  | None =>
      let '(content, err) :=
        if strings.HasSuffix p ".age" then decryptValueWithAge content ids
        else (content, None) in
      match err with
      | Some e => ([], Some e)
      | None => keyValuesFromLines content
      end
  end.

Fixpoint keyValuesFromEnvFiles_loop (paths : list string)
  (ids : list Identity) (kvs : list Pair) : list Pair * option error :=
  match paths with
  | [] => (kvs, None)
  | p :: rest =>
      let '(more, err) := keyValuesFromEnvFiles_body p ids in
      match err with
      | Some e => ([], Some e)
      | None => keyValuesFromEnvFiles_loop rest ids (kvs ++ more)
      end
  end.

Definition keyValuesFromEnvFiles (paths : list string)
  (ids : list Identity) : list Pair * option error :=
  keyValuesFromEnvFiles_loop paths ids [].

(** [Load]: the pairs of all the sources of [args]. *)
Definition Load (args : KvPairSources) : list Pair * option error :=
  let all : list Pair := [] in
  let '(ids, err) := getAgeIdentities (AgeIdentitySources args) in
  match err with
  | Some e =>
      ([], Some (errors.Wrap e ("age identity source files: "
                                ++ fmt.v_strings (AgeIdentitySources args))))
  | None =>
      let '(pairs, err) := keyValuesFromEnvFiles (EnvSources args) ids in
      match err with
      | Some e =>
          ([], Some (errors.Wrap e ("env source files: "
                                    ++ fmt.v_strings (EnvSources args))))
      | None =>
          let all := (all ++ pairs)%list in
          let '(pairs, err) :=
            keyValuesFromLiteralSources (LiteralSources args) ids in
          match err with
          | Some e =>
              ([], Some (errors.Wrap e
                           ("literal sources "
                            ++ fmt.v_strings (LiteralSources args))))
          | None =>
              let all := (all ++ pairs)%list in
              let '(pairs, err) :=
                keyValuesFromFileSources (FileSources args) ids in
              match err with
              | Some e =>
                  ([], Some (errors.Wrap e
                               ("file sources: "
                                ++ fmt.v_strings (FileSources args))))
              | None => ((all ++ pairs)%list, None)
              end
          end
      end
  end.

End Loader.


(** * Vocabulary of the properties *)

(** Every byte of [s] belongs to [cutset]. *)
Fixpoint all_in (s cutset : string) : bool :=
  match s with
  | EmptyString => true
  | String c rest => inb c cutset && all_in rest cutset
  end.

(** [s] starts with a byte of [cutset]. *)
Definition head_in (s cutset : string) : bool :=
  match s with
  | EmptyString => false
  | String c _ => inb c cutset
  end.

(** [s] ends with a byte of [cutset]. *)
Fixpoint last_in (s cutset : string) : bool :=
  match s with
  | EmptyString => false
  | String c EmptyString => inb c cutset
  | String _ rest => last_in rest cutset
  end.

(** Stripping one layer of quotes, as the specification words it: at most
    one quote character removed at each end, independently. *)
Definition strip_leading_quote (v : string) : string :=
  match v with
  | EmptyString => EmptyString
  | String c rest => if inb c quoteCutset then rest else v
  end.

Fixpoint strip_trailing_quote (v : string) : string :=
  match v with
  | EmptyString => EmptyString
  | String c EmptyString => if inb c quoteCutset then EmptyString else v
  | String c rest => String c (strip_trailing_quote rest)
  end.

Definition strip_one_quote_layer (v : string) : string :=
  strip_leading_quote (strip_trailing_quote v).

(** The error component of a result. *)
Definition err_of {A : Type} (r : A * option error) : option error := snd r.


(** [enc] is the UTF-8 encoding of exactly one rune, a white space. *)
Definition space_rune (enc : string) : Prop :=
  enc <> "" /\
  exists r, utf8.DecodeRune enc = (r, len enc) /\ unicode.IsSpace r = true.

(** [ws] is a sequence of UTF-8 encoded white space runes. *)
Inductive SpaceRun : string -> Prop :=
| SpaceRun_nil : SpaceRun ""
| SpaceRun_cons (enc rest : string) :
    space_rune enc -> SpaceRun rest -> SpaceRun (enc ++ rest).

(** [s] starts with a white space rune. *)
Definition starts_with_space (s : string) : bool :=
  unicode.IsSpace (fst (utf8.DecodeRune s)).

(** The pair with a blank key that [keyValuesFromLine] returns for a line
    to skip. *)
Definition blank : Pair := Build_Pair "" "".

(** [s] without its first [n] bytes. *)
Fixpoint skip (n : nat) (s : string) : string :=
  match n, s with
  | O, _ => s
  | S _, EmptyString => EmptyString
  | S n', String _ s' => skip n' s'
  end.

(** The first [n] bytes of [s]. *)
Fixpoint take (n : nat) (s : string) : string :=
  match n, s with
  | O, _ => EmptyString
  | S _, EmptyString => EmptyString
  | S n', String c s' => String c (take n' s')
  end.


(** A body that gives one pair, as a body that gives a list. *)
Definition one {B : Type} (r : B * option error) : list B * option error :=
  ([fst r], snd r).

(** The lines of a file with their indexes, counted from [i]. *)
Fixpoint number (i : Z) (lines : list string) : list (Z * string) :=
  match lines with
  | [] => []
  | l :: rest => (i, l) :: number (i + 1) rest
  end.

(** A pair that [keyValuesFromLines] keeps: its key is not blank. *)
Definition keyed (kv : Pair) : bool := negb (len (Key kv) =? 0).

(** * Concrete collaborators, for the examples *)

(** The validator and the environment of the examples: every name but the
    empty one is accepted, and [FOO] is the one variable set. *)
Definition sample_validator (key : string) : option error :=
  if String.eqb key "" then Some (errors.New "invalid name") else None.

Definition sample_environ (key : string) : option string :=
  if String.eqb key "FOO" then Some "from-env" else None.

Definition lf : string := String "010" "".

(** A file system with an env file, a plain file and an encrypted file. *)
Definition sample_ldr (path : string) : string * option error :=
  if String.eqb path "app.env" then ("A=1" ++ lf ++ "FOO" ++ lf, None)
  else if String.eqb path "data.txt" then ("hello", None)
  else if String.eqb path "conf/image.age" then ("ciphertext", None)
  else ("", Some (errors.New ("open " ++ path ++ ": no such file"))).

Definition sample_abs (path : string) : string * option error :=
  (path, None).

(** No SSH key can be read. *)
Definition sample_readfile (path : string) : string * option error :=
  ("", Some (errors.New ("open " ++ path ++ ": no such file"))).

Definition sample_parse (content : string) : list unit * option error :=
  ([tt], None).

Definition sample_ssh (path content : string) : list unit * option error :=
  ([], Some (errors.New "not an SSH key")).

(** Decryption functions that show which of the two was called. *)
Definition sample_inline (content : string) (ids : list unit)
  : string * option error :=
  ("inline(" ++ content ++ ")", None).

Definition sample_whole (content : string) (ids : list unit)
  : string * option error :=
  ("whole(" ++ content ++ ")", None).

(** A decryption that always fails. *)
Definition sample_no_key (content : string) (ids : list unit)
  : string * option error :=
  ("", Some (errors.New "no identity matched")).

Definition sample_Load : KvPairSources -> list Pair * option error :=
  Load sample_ldr sample_ldr sample_validator sample_environ sample_abs
    sample_readfile unit sample_parse sample_ssh sample_inline sample_whole.

Definition sample_identities : list string -> list unit * option error :=
  getAgeIdentities sample_ldr sample_environ sample_abs sample_readfile
    unit sample_parse sample_ssh.

Definition sample_identityBody : string -> list unit * option error :=
  getAgeIdentities_body sample_ldr sample_abs unit sample_parse.

Definition sample_envBody
  : string -> list unit -> list Pair * option error :=
  keyValuesFromEnvFiles_body sample_ldr sample_validator sample_environ
    unit sample_whole.

Definition sample_literalBody : string -> list unit -> Pair * option error :=
  keyValuesFromLiteralSources_body unit sample_inline sample_whole.

Definition sample_fileBody : string -> list unit -> Pair * option error :=
  keyValuesFromFileSources_body sample_ldr unit sample_inline sample_whole.

Definition sample_args : KvPairSources :=
  {| LiteralSources := ["x=1"; "y=2"];
     FileSources := ["k=data.txt"];
     EnvSources := ["app.env"];
     AgeIdentitySources := [] |}.

(** The sources of [sample_args] with a literal source that has no [=]. *)
Definition sample_args_bad_literal : KvPairSources :=
  {| LiteralSources := ["x=1"; "novalue"];
     FileSources := ["k=data.txt"];
     EnvSources := ["app.env"];
     AgeIdentitySources := [] |}.

(** * Bytes and strings: basic facts *)

Lemma append_nil_r (s : string) : s ++ "" = s.
Proof. induction s as [|c s IH]; simpl; [reflexivity | now rewrite IH]. Qed.

Lemma append_assoc (a b c : string) : (a ++ b) ++ c = a ++ b ++ c.
Proof. induction a as [|x a IH]; simpl; [reflexivity | now rewrite IH]. Qed.

Lemma length_append (a b : string) :
  String.length (a ++ b) = (String.length a + String.length b)%nat.
Proof. induction a as [|x a IH]; simpl; [reflexivity | now rewrite IH]. Qed.

Lemma inb_app (b : byte) (s t : string) :
  inb b (s ++ t) = inb b s || inb b t.
Proof.
  induction s as [|c s IH]; simpl; [reflexivity|].
  now rewrite IH, orb_assoc.
Qed.

(** A string that contains [b] splits at the first [b]. *)
Lemma split_at_first (b : byte) (s : string) :
  inb b s = true ->
  exists k r, s = k ++ String b r /\ inb b k = false.
Proof.
  induction s as [|c s IH]; simpl; [discriminate|].
  destruct (Ascii.eqb b c) eqn:E; simpl; intros H.
  - apply Ascii.eqb_eq in E; subst c. now exists "", s.
  - destruct (IH H) as (k & r & -> & Hk).
    exists (String c k), r. simpl. now rewrite E.
Qed.

Module StringsFacts.

Lemma Count_nonneg s sep : 0 <= strings.Count s sep.
Proof. induction s as [|c s IH]; simpl; [lia | destruct (Ascii.eqb c sep); lia]. Qed.

Lemma Count_app s t sep :
  strings.Count (s ++ t) sep = strings.Count s sep + strings.Count t sep.
Proof. induction s as [|c s IH]; simpl; [reflexivity | rewrite IH; lia]. Qed.

Lemma Count_zero s sep : strings.Count s sep = 0 <-> inb sep s = false.
Proof.
  induction s as [|c s IH]; simpl; [tauto|].
  pose proof (Count_nonneg s sep). rewrite (Ascii.eqb_sym sep c).
  destruct (Ascii.eqb c sep); cbn [orb].
  - split; [lia | discriminate].
  - rewrite <- IH. split; lia.
Qed.

Lemma Count_pos s sep : 0 < strings.Count s sep <-> inb sep s = true.
Proof.
  pose proof (Count_nonneg s sep). pose proof (Count_zero s sep).
  destruct (inb sep s); split; intros; try lia; try discriminate.
Qed.

Lemma HasPrefix_app s t : strings.HasPrefix (s ++ t) s = true.
Proof.
  induction s as [|c s IH]; simpl; [reflexivity|].
  now rewrite Ascii.eqb_refl.
Qed.

Lemma HasPrefix_inv s p :
  strings.HasPrefix s p = true -> exists t, s = p ++ t.
Proof.
  revert s; induction p as [|c p IH]; intros s; simpl.
  - now exists s.
  - destruct s as [|d s]; [discriminate|].
    intros H. apply andb_prop in H as [E H]. apply Ascii.eqb_eq in E; subst.
    destruct (IH _ H) as [t ->]. now exists t.
Qed.

Lemma HasSuffix_app s t : strings.HasSuffix (s ++ t) t = true.
Proof.
  induction s as [|c s IH]; simpl.
  - destruct t; simpl; [reflexivity|].
    now rewrite Ascii.eqb_refl, String.eqb_refl.
  - rewrite IH. apply orb_true_r.
Qed.

Lemma HasSuffix_inv s t :
  strings.HasSuffix s t = true -> exists p, s = p ++ t.
Proof.
  induction s as [|c s IH]; cbn [strings.HasSuffix].
  - rewrite orb_false_r. intros H. apply String.eqb_eq in H. now exists "".
  - intros H. apply orb_prop in H as [H|H].
    + apply String.eqb_eq in H. now exists "".
    + destruct (IH H) as [p ->]. now exists (String c p).
Qed.

Lemma substring_skip (p t : string) :
  String.substring (String.length p) (String.length t) (p ++ t) = t.
Proof.
  induction p as [|c p IH]; simpl; [|exact IH].
  induction t as [|d t IHt]; simpl; [reflexivity | now rewrite IHt].
Qed.

Lemma substring_take (p t : string) :
  String.substring 0 (String.length p) (p ++ t) = p.
Proof.
  induction p as [|c p IH]; simpl; [now destruct t | now rewrite IH].
Qed.

Lemma TrimPrefix_app p t : strings.TrimPrefix (p ++ t) p = t.
Proof.
  unfold strings.TrimPrefix. rewrite HasPrefix_app, length_append.
  replace (String.length p + String.length t - String.length p)%nat
    with (String.length t) by lia.
  apply substring_skip.
Qed.

Lemma TrimSuffix_app p t : strings.TrimSuffix (p ++ t) t = p.
Proof.
  unfold strings.TrimSuffix. rewrite HasSuffix_app, length_append.
  replace (String.length p + String.length t - String.length t)%nat
    with (String.length p) by lia.
  apply substring_take.
Qed.

Lemma Index_range s sep : -1 <= strings.Index s sep.
Proof.
  induction s as [|c s IH]; simpl; [lia|].
  destruct (Ascii.eqb c sep); [lia|].
  destruct (strings.Index s sep <? 0) eqn:E; [lia|].
  apply Z.ltb_ge in E. lia.
Qed.

(** [strings.Index(s, sep) == 0] says that [s] starts with [sep]. *)
Lemma Index_zero s sep :
  (strings.Index s sep =? 0) = strings.HasPrefix s (String sep "").
Proof.
  destruct s as [|c s]; simpl; [reflexivity|].
  destruct (Ascii.eqb c sep); simpl; [reflexivity|].
  pose proof (Index_range s sep).
  destruct (strings.Index s sep <? 0) eqn:E; [reflexivity|].
  apply Z.ltb_ge in E. apply Z.eqb_neq. lia.
Qed.

Lemma SplitN_2_none s sep :
  inb sep s = false -> strings.SplitN s sep 2 = [s].
Proof.
  induction s as [|c s IH]; simpl; [reflexivity|].
  rewrite (Ascii.eqb_sym sep c).
  destruct (Ascii.eqb c sep); simpl; [discriminate|].
  intros H. fold (strings.SplitN s sep 2). now rewrite (IH H).
Qed.

Lemma SplitN_1 s sep : strings.SplitN s sep 1 = [s].
Proof. now destruct s. Qed.

(** Splitting in two cuts at the first separator only. *)
Lemma SplitN_2_first k r sep :
  inb sep k = false ->
  strings.SplitN (k ++ String sep r) sep 2 = [k; r].
Proof.
  induction k as [|c k IH]; simpl.
  - now rewrite Ascii.eqb_refl, SplitN_1.
  - rewrite (Ascii.eqb_sym sep c).
    destruct (Ascii.eqb c sep); simpl; [discriminate|].
    intros H. fold (strings.SplitN (k ++ String sep r) sep 2).
    now rewrite (IH H).
Qed.

Lemma Split_none s sep : inb sep s = false -> strings.Split s sep = [s].
Proof.
  induction s as [|c s IH]; simpl; [reflexivity|].
  rewrite (Ascii.eqb_sym sep c).
  destruct (Ascii.eqb c sep); simpl; [discriminate|].
  intros H. now rewrite (IH H).
Qed.

Lemma Split_one k p sep :
  inb sep k = false -> inb sep p = false ->
  strings.Split (k ++ String sep p) sep = [k; p].
Proof.
  intros Hk Hp. induction k as [|c k IH]; simpl.
  - now rewrite Ascii.eqb_refl, (Split_none _ _ Hp).
  - simpl in Hk. rewrite (Ascii.eqb_sym sep c) in Hk.
    destruct (Ascii.eqb c sep); simpl in *; [discriminate|].
    now rewrite (IH Hk).
Qed.

End StringsFacts.

Module TrimFacts.

Lemma last_in_app a b cutset :
  last_in (a ++ b) cutset
  = match b with EmptyString => last_in a cutset | _ => last_in b cutset end.
Proof.
  induction a as [|c a IH]; simpl.
  - now destruct b.
  - destruct b as [|d b].
    + now rewrite append_nil_r.
    + rewrite IH. now destruct a.
Qed.

Lemma TrimLeft_decomp s cutset :
  exists l, s = l ++ strings.TrimLeft s cutset
            /\ all_in l cutset = true
            /\ head_in (strings.TrimLeft s cutset) cutset = false.
Proof.
  induction s as [|c s (l & E & Hl & Hh)]; simpl.
  - now exists "".
  - destruct (inb c cutset) eqn:C.
    + exists (String c l). simpl. rewrite C, Hl, <- E. now repeat split.
    + exists "". simpl. now rewrite C.
Qed.

Lemma TrimRight_decomp s cutset :
  exists r, s = strings.TrimRight s cutset ++ r
            /\ all_in r cutset = true
            /\ last_in (strings.TrimRight s cutset) cutset = false.
Proof.
  induction s as [|c s (r & E & Hr & Hl)]; simpl.
  - now exists "".
  - destruct (strings.TrimRight s cutset) as [|d t] eqn:T.
    + destruct (inb c cutset) eqn:C.
      * exists (String c r). simpl in E. subst r. simpl. now rewrite C, Hr.
      * exists r. simpl in E. subst r. simpl. now rewrite C.
    + exists r. repeat split; auto.
      simpl in E |- *. now rewrite <- E.
Qed.

(** [strings.Trim] removes a run of cut-set bytes at each end, and what is
    left neither starts nor ends with a byte of the cut set. *)
Lemma Trim_decomp s cutset :
  exists l r, s = l ++ strings.Trim s cutset ++ r
              /\ all_in l cutset = true /\ all_in r cutset = true
              /\ head_in (strings.Trim s cutset) cutset = false
              /\ last_in (strings.Trim s cutset) cutset = false.
Proof.
  unfold strings.Trim.
  destruct (TrimRight_decomp s cutset) as (r & E & Hr & Hl).
  destruct (TrimLeft_decomp (strings.TrimRight s cutset) cutset)
    as (l & E' & Hl' & Hh).
  exists l, r. repeat split; auto.
  - rewrite <- append_assoc, <- E'. exact E.
  - rewrite E', last_in_app in Hl.
    destruct (strings.TrimLeft (strings.TrimRight s cutset) cutset);
      [reflexivity | exact Hl].
Qed.

End TrimFacts.

(** * parseLiteralSource *)

Lemma parseLiteralSource_leading_eq (r : string) :
  parseLiteralSource (String eq_sign r)
  = ("", "", Some (fmt.Errorf ("invalid literal source " ++ String eq_sign r
                               ++ ", expected key=value"))).
Proof. reflexivity. Qed.

Lemma parseLiteralSource_no_eq (source : string) :
  inb eq_sign source = false ->
  parseLiteralSource source
  = ("", "", Some (fmt.Errorf ("invalid literal source " ++ source
                               ++ ", expected key=value"))).
Proof.
  intros H. unfold parseLiteralSource.
  rewrite (StringsFacts.SplitN_2_none _ _ H).
  now destruct (strings.Index source eq_sign =? 0).
Qed.

Lemma head_not_sep (k r : string) (sep : byte) :
  k <> "" -> inb sep k = false ->
  strings.HasPrefix (k ++ r) (String sep "") = false.
Proof.
  destruct k as [|c k]; [congruence|]. simpl. intros _ H.
  rewrite (Ascii.eqb_sym c sep). apply orb_false_elim in H as [-> _].
  reflexivity.
Qed.

Lemma parseLiteralSource_split (k raw : string) :
  k <> "" -> inb eq_sign k = false ->
  parseLiteralSource (k ++ String eq_sign raw)
  = (k, strings.Trim raw quoteCutset, None).
Proof.
  intros Hk Hne. unfold parseLiteralSource.
  rewrite StringsFacts.Index_zero, (head_not_sep _ _ _ Hk Hne).
  now rewrite (StringsFacts.SplitN_2_first _ _ _ Hne).
Qed.

(** C8.  [parseLiteralSource] returns an error exactly when the source
    starts with [=] or contains no [=]; otherwise it succeeds, the key is
    what stands before the first [=] and the value is made of everything
    after it (trimmed of quotes), further [=] included. *)
Theorem parseLiteralSource_error_iff (source : string) :
  (err_of (parseLiteralSource source) <> None
   <-> ((exists r, source = String eq_sign r) \/ inb eq_sign source = false))
  /\ (err_of (parseLiteralSource source) = None ->
      exists k raw,
        source = k ++ String eq_sign raw /\ k <> "" /\ inb eq_sign k = false
        /\ parseLiteralSource source
           = (k, strings.Trim raw quoteCutset, None)).
Proof.
  destruct (inb eq_sign source) eqn:Hin.
  - destruct (split_at_first _ _ Hin) as (k & raw & -> & Hk).
    destruct k as [|c k].
    + simpl. split; [split; [eauto | discriminate]|].
      discriminate.
    + assert (Hne : String c k <> "") by discriminate.
      rewrite (parseLiteralSource_split _ raw Hne Hk).
      split.
      * split; [now intros []|]. intros [[r E]|E]; [|discriminate].
        exfalso. simpl in E. injection E as -> _.
        cbn [inb] in Hk. now rewrite Ascii.eqb_refl in Hk.
      * intros _. now exists (String c k), raw.
  - rewrite (parseLiteralSource_no_eq _ Hin). simpl.
    split; [split; [now right | discriminate] | discriminate].
Qed.

Example parseLiteralSource_eq_in_value :
  parseLiteralSource "k=a=b" = ("k", "a=b", None).
Proof. reflexivity. Qed.

(** C10.  A key followed by a single trailing [=] parses to the key and the
    empty value: an empty value is no error. *)
Theorem parseLiteralSource_empty_value (k : string) :
  k <> "" -> inb eq_sign k = false ->
  parseLiteralSource (k ++ "=") = (k, "", None).
Proof.
  intros Hk Hne. exact (parseLiteralSource_split k "" Hk Hne).
Qed.

Lemma parseLiteralSource_empty_value_witness :
  parseLiteralSource ("key" ++ "=") = ("key", "", None).
Proof.
  apply (parseLiteralSource_empty_value "key"); [discriminate | reflexivity].
Defined.

(** C5 (as stated, refuted).  On the value written with two quotes on each
    side of [x] the parser returns [x], where stripping one layer leaves
    [x] between one pair of quotes. *)
Lemma parseLiteralSource_strips_inner_layer :
  let raw :=
    String dquote (String dquote ("x" ++ String dquote (String dquote "")))
  in
  parseLiteralSource ("k=" ++ raw) = ("k", "x", None)
  /\ strip_one_quote_layer raw = String dquote ("x" ++ String dquote "")
  /\ parseLiteralSource ("k=" ++ raw)
     <> ("k", strip_one_quote_layer raw, None).
Proof. repeat split. discriminate. Qed.

(** C5 (amended).  For a source [key=value], [parseLiteralSource] strips
    every leading and every trailing quote character of the value, double
    or single, in any mix: the returned value is the raw value without a
    run of quotes at each end, and it neither starts nor ends with a
    quote. *)
Theorem parseLiteralSource_trims_all_quotes (k raw : string) :
  k <> "" -> inb eq_sign k = false ->
  exists l v r,
    parseLiteralSource (k ++ String eq_sign raw) = (k, v, None)
    /\ raw = l ++ v ++ r
    /\ all_in l quoteCutset = true /\ all_in r quoteCutset = true
    /\ head_in v quoteCutset = false /\ last_in v quoteCutset = false.
Proof.
  intros Hk Hne.
  destruct (TrimFacts.Trim_decomp raw quoteCutset) as (l & r & E & H).
  exists l, (strings.Trim raw quoteCutset), r.
  split; [now apply parseLiteralSource_split | now split].
Qed.

Lemma parseLiteralSource_trims_all_quotes_witness :
  exists l v r,
    parseLiteralSource
      ("k" ++ String eq_sign
         (String dquote (String squote ("x" ++ String dquote ""))))
    = ("k", v, None)
    /\ String dquote (String squote ("x" ++ String dquote "")) = l ++ v ++ r
    /\ all_in l quoteCutset = true /\ all_in r quoteCutset = true
    /\ head_in v quoteCutset = false /\ last_in v quoteCutset = false.
Proof.
  apply (parseLiteralSource_trims_all_quotes "k");
    [discriminate | reflexivity].
Defined.

(** * parseFileSource *)

Module SplitFacts.

Lemma Split_length s sep :
  Z.of_nat (List.length (strings.Split s sep)) = strings.Count s sep + 1.
Proof.
  induction s as [|c s IH]; simpl; [reflexivity|].
  pose proof (StringsFacts.Count_nonneg s sep).
  destruct (Ascii.eqb c sep).
  - cbn [List.length]. lia.
  - destruct (strings.Split s sep) as [|h t]; cbn [List.length] in *; lia.
Qed.

Lemma HasSuffix_byte s b :
  strings.HasSuffix s (String b "") = last_in s (String b "").
Proof.
  induction s as [|c s IH]; [reflexivity|].
  cbn [strings.HasSuffix]. rewrite IH.
  destruct s as [|d s]; simpl.
  - now destruct (Ascii.eqb c b).
  - now destruct (Ascii.eqb c b).
Qed.

Lemma last_in_byte s b : last_in s (String b "") = true -> inb b s = true.
Proof.
  induction s as [|c s IH]; [discriminate|].
  destruct s as [|d s].
  - simpl. rewrite (Ascii.eqb_sym b c). now destruct (Ascii.eqb c b).
  - intros H.
    change (Ascii.eqb b c || inb b (String d s) = true).
    rewrite (IH H). apply orb_true_r.
Qed.

Lemma HasSuffix_tail k p sep :
  p <> "" -> inb sep p = false ->
  strings.HasSuffix (k ++ String sep p) (String sep "") = false.
Proof.
  intros Hp Hne. rewrite HasSuffix_byte, TrimFacts.last_in_app.
  destruct p as [|d p]; [congruence|].
  change (last_in (String sep (String d p)) (String sep ""))
    with (last_in (String d p) (String sep "")).
  destruct (last_in (String d p) (String sep "")) eqn:L; [|reflexivity].
  apply last_in_byte in L. congruence.
Qed.

End SplitFacts.

(** The [default] branch of [parseFileSource] is taken with exactly one
    separator, where [components] has two elements: its indexes 0 and 1 are
    in range. *)
Lemma parseFileSource_components (source : string) :
  strings.Count source eq_sign = 1 ->
  List.length (strings.Split source eq_sign) = 2%nat.
Proof.
  intros H. pose proof (SplitFacts.Split_length source eq_sign). lia.
Qed.

Lemma parseFileSource_missing_key (p : string) :
  inb eq_sign p = false ->
  parseFileSource (String eq_sign p)
  = ("", "", Some (fmt.Errorf ("key name for file path " ++ p
                               ++ " missing"))).
Proof.
  intros Hp. apply StringsFacts.Count_zero in Hp.
  unfold parseFileSource.
  change (strings.Count (String eq_sign p) eq_sign)
    with (1 + strings.Count p eq_sign).
  rewrite Hp. cbn -[strings.TrimPrefix append].
  change (strings.TrimPrefix (String eq_sign p) "=")
    with (strings.TrimPrefix ("=" ++ p) "=").
  now rewrite (StringsFacts.TrimPrefix_app "=" p).
Qed.

Lemma parseFileSource_missing_path (k : string) :
  k <> "" -> inb eq_sign k = false ->
  parseFileSource (k ++ "=")
  = ("", "", Some (fmt.Errorf ("file path for key name " ++ k
                               ++ " missing"))).
Proof.
  intros Hk Hne. unfold parseFileSource.
  rewrite StringsFacts.Count_app.
  apply StringsFacts.Count_zero in Hne as Hc. rewrite Hc.
  change (0 + strings.Count "=" eq_sign =? 0) with false.
  change (0 + strings.Count "=" eq_sign =? 1) with true.
  cbv iota. cbn [andb].
  change "=" with (String eq_sign "") at 1.
  rewrite (head_not_sep _ _ _ Hk Hne).
  now rewrite StringsFacts.HasSuffix_app, StringsFacts.TrimSuffix_app.
Qed.

Lemma parseFileSource_split (k p : string) :
  k <> "" -> p <> "" -> inb eq_sign k = false -> inb eq_sign p = false ->
  parseFileSource (k ++ String eq_sign p) = (k, p, None).
Proof.
  intros Hk Hp Hnk Hnp. unfold parseFileSource.
  rewrite StringsFacts.Count_app.
  apply StringsFacts.Count_zero in Hnk as Hc. rewrite Hc.
  change (strings.Count (String eq_sign p) eq_sign)
    with (1 + strings.Count p eq_sign).
  apply StringsFacts.Count_zero in Hnp as Hc'. rewrite Hc'.
  change (0 + (1 + 0) =? 0) with false.
  change (0 + (1 + 0) =? 1) with true.
  change (0 + (1 + 0) >? 1) with false.
  cbv iota. cbn [andb].
  change "=" with (String eq_sign "").
  rewrite (head_not_sep _ _ _ Hk Hnk).
  rewrite (SplitFacts.HasSuffix_tail _ _ _ Hp Hnp).
  now rewrite (StringsFacts.Split_one _ _ _ Hnk Hnp).
Qed.

(** C6.  [parseFileSource] by the number of [=] in the source, the cases
    taken in this order: none, the base name of the source and the source;
    one, leading: the missing-key error; one, trailing: the missing-path
    error; several: an error; one, elsewhere: the key before it and the
    path after it.  With one [=] the source does split at it. *)
Theorem parseFileSource_cases (source : string) :
  (strings.Count source eq_sign = 0 ->
   parseFileSource source = (path.Base source, source, None))
  /\ (forall p,
         strings.Count source eq_sign = 1 -> source = String eq_sign p ->
         parseFileSource source
         = ("", "", Some (fmt.Errorf ("key name for file path " ++ p
                                      ++ " missing"))))
  /\ (forall k,
         strings.Count source eq_sign = 1 -> k <> "" -> source = k ++ "=" ->
         parseFileSource source
         = ("", "", Some (fmt.Errorf ("file path for key name " ++ k
                                      ++ " missing"))))
  /\ (1 < strings.Count source eq_sign ->
      parseFileSource source
      = ("", "",
         Some (errors.New "key names or file paths cannot contain '='")))
  /\ (forall k p,
         strings.Count source eq_sign = 1 -> k <> "" -> p <> "" ->
         source = k ++ String eq_sign p ->
         parseFileSource source = (k, p, None))
  /\ (strings.Count source eq_sign = 1 ->
      exists k p, source = k ++ String eq_sign p).
Proof.
  repeat split.
  - intros H. unfold parseFileSource. now rewrite H.
  - intros p H ->. apply parseFileSource_missing_key.
    apply StringsFacts.Count_zero.
    change (strings.Count (String eq_sign p) eq_sign)
      with (1 + strings.Count p eq_sign) in H. lia.
  - intros k H Hk ->. apply parseFileSource_missing_path; [exact Hk|].
    apply StringsFacts.Count_zero.
    rewrite StringsFacts.Count_app in H.
    change (strings.Count "=" eq_sign) with 1 in H. lia.
  - intros H. unfold parseFileSource.
    destruct (strings.Count source eq_sign =? 0) eqn:E0; [lia|].
    destruct (strings.Count source eq_sign =? 1) eqn:E1; [lia|].
    cbn [andb].
    destruct (strings.Count source eq_sign >? 1) eqn:E2; [reflexivity|lia].
  - intros k p H Hk Hp ->.
    rewrite StringsFacts.Count_app in H.
    change (strings.Count (String eq_sign p) eq_sign)
      with (1 + strings.Count p eq_sign) in H.
    pose proof (StringsFacts.Count_nonneg k eq_sign).
    pose proof (StringsFacts.Count_nonneg p eq_sign).
    apply parseFileSource_split; auto;
      apply StringsFacts.Count_zero; lia.
  - intros H.
    assert (Hin : inb eq_sign source = true)
      by (apply StringsFacts.Count_pos; lia).
    destruct (split_at_first _ _ Hin) as (k & p & E & _). eauto.
Qed.

Example Base_examples :
  path.Base "a/b/" = "b" /\ path.Base "///" = "/" /\ path.Base "" = "."
  /\ path.Base "plain" = "plain".
Proof. repeat split. Qed.

Example d_bytes_example :
  fmt.d_bytes (String "000" (String "255" "")) = "[0 255]".
Proof. reflexivity. Qed.

Example parseFileSource_plain :
  parseFileSource "path/to/foo.txt" = ("foo.txt", "path/to/foo.txt", None).
Proof. reflexivity. Qed.

Example parseFileSource_keyed :
  parseFileSource "secret=path/to/foo.txt"
  = ("secret", "path/to/foo.txt", None).
Proof. reflexivity. Qed.

Example parseFileSource_failures :
  err_of (parseFileSource "=path") <> None
  /\ err_of (parseFileSource "key=") <> None
  /\ err_of (parseFileSource "a=b=c") <> None.
Proof. repeat split; discriminate. Qed.

(** The source made of a single [=] has its separator both leading and
    trailing: the first case listed applies. *)
Example parseFileSource_lone_separator :
  parseFileSource "="
  = ("", "", Some (fmt.Errorf "key name for file path  missing")).
Proof. reflexivity. Qed.

(** * Runes and white space *)

Module RuneFacts.

Ltac break_match :=
  match goal with
  | H : context [match ?x with _ => _ end] |- _ =>
      destruct x eqn:?; try discriminate
  | |- context [match ?x with _ => _ end] =>
      destruct x eqn:?; try discriminate
  end.

Lemma take_skip n s : take n s ++ skip n s = s.
Proof.
  revert s; induction n as [|n IH]; intros [|c s]; simpl; auto.
  now rewrite IH.
Qed.

Lemma take_length n s :
  (n <= String.length s)%nat -> String.length (take n s) = n.
Proof.
  revert s; induction n as [|n IH]; intros [|c s]; simpl; auto; try lia.
  intros H. rewrite IH; lia.
Qed.

Lemma skip_length n s :
  String.length (skip n s) = (String.length s - n)%nat.
Proof.
  revert s; induction n as [|n IH]; intros [|c s]; simpl; auto.
Qed.

(** The width [utf8.DecodeRune] returns is between 1 and 4 and within the
    input. *)
Lemma DecodeRune_width s r wid :
  s <> "" -> utf8.DecodeRune s = (r, wid) ->
  1 <= wid <= 4 /\ wid <= len s.
Proof.
  intros Hs H. destruct s as [|b0 s]; [congruence|].
  unfold utf8.DecodeRune in H. unfold len.
  repeat break_match; injection H as <- <-; cbn [String.length]; lia.
Qed.

(** Decoding reads the bytes of the first rune only. *)
Lemma DecodeRune_take s r wid :
  utf8.DecodeRune s = (r, wid) -> r <> utf8.RuneError ->
  utf8.DecodeRune (take (Z.to_nat wid) s) = (r, wid).
Proof.
  intros H Hr. destruct s as [|b0 s]; [simpl in H; congruence|].
  unfold utf8.DecodeRune in H.
  repeat break_match; injection H as <- <-; try congruence;
    try change (Z.to_nat 1) with 1%nat; try change (Z.to_nat 2) with 2%nat;
    try change (Z.to_nat 3) with 3%nat; try change (Z.to_nat 4) with 4%nat;
    cbn [take]; unfold utf8.DecodeRune;
    repeat match goal with H : _ = _ |- _ => rewrite H end; reflexivity.
Qed.

End RuneFacts.

Module TrimLeftFuncFacts.

Lemma decode_ascii_shortcut b0 s1 :
  (if byte_val b0 <? utf8.RuneSelf then (byte_val b0, 1)
   else utf8.DecodeRune (String b0 s1))
  = utf8.DecodeRune (String b0 s1).
Proof.
  unfold utf8.DecodeRune. now destruct (byte_val b0 <? utf8.RuneSelf).
Qed.

(** One turn of the loop of [indexFunc]: a rune that satisfies [f] is
    passed over, by its width. *)
Lemma TrimLeftFunc_step f b0 s1 r wid :
  utf8.DecodeRune (String b0 s1) = (r, wid) ->
  bytes.TrimLeftFunc (String b0 s1) f
  = if negb (f r) then String b0 s1
    else bytes.TrimLeftFunc (skip (Z.to_nat wid) (String b0 s1)) f.
Proof.
  intros D.
  assert (W : 1 <= wid <= 4 /\ wid <= len (String b0 s1))
    by (apply (RuneFacts.DecodeRune_width _ r); [discriminate | exact D]).
  destruct W as [W L]. unfold len in L.
  cbn [bytes.TrimLeftFunc]. rewrite decode_ascii_shortcut, D.
  destruct (f r); cbn [negb]; [|reflexivity].
  assert (C : wid = 1 \/ wid = 2 \/ wid = 3 \/ wid = 4) by lia.
  destruct s1 as [|b1 [|b2 [|b3 s4]]]; cbn [String.length] in L;
    destruct C as [-> | [-> | [-> | ->]]]; try lia; reflexivity.
Qed.

Lemma RuneError_not_space : unicode.IsSpace utf8.RuneError = false.
Proof. reflexivity. Qed.

(** [bytes.TrimLeftFunc(s, unicode.IsSpace)] removes a run of white space
    runes, and what is left does not start with white space. *)
Lemma TrimLeftFunc_spaces (s : string) :
  exists ws,
    s = ws ++ bytes.TrimLeftFunc s unicode.IsSpace
    /\ SpaceRun ws
    /\ starts_with_space (bytes.TrimLeftFunc s unicode.IsSpace) = false.
Proof.
  remember (String.length s) as n eqn:Hn.
  assert (Hle : (String.length s <= n)%nat) by lia. clear Hn.
  revert s Hle. induction n as [|n IH]; intros s Hle.
  - destruct s; [|simpl in Hle; lia].
    exists "". repeat split. constructor.
  - destruct s as [|b0 s1].
    { exists "". repeat split. constructor. }
    destruct (utf8.DecodeRune (String b0 s1)) as [r wid] eqn:D.
    rewrite (TrimLeftFunc_step _ _ _ _ _ D).
    assert (Hne : String b0 s1 <> "") by discriminate.
    destruct (RuneFacts.DecodeRune_width _ _ _ Hne D) as [W L].
    destruct (unicode.IsSpace r) eqn:Sp; cbn [negb].
    + set (s := String b0 s1) in *.
      destruct (IH (skip (Z.to_nat wid) s)) as (ws & E & Hws & Hsp).
      { rewrite RuneFacts.skip_length. lia. }
      exists (take (Z.to_nat wid) s ++ ws). repeat split.
      * rewrite append_assoc, <- E. now rewrite RuneFacts.take_skip.
      * constructor; [|exact Hws]. split.
        { intros E0. apply (f_equal String.length) in E0.
          unfold len in L. rewrite RuneFacts.take_length in E0 by lia.
          simpl in E0. lia. }
        exists r. split; [|exact Sp].
        unfold len in *. rewrite RuneFacts.take_length by lia.
        rewrite Z2Nat.id by lia.
        apply RuneFacts.DecodeRune_take; [exact D|].
        intros ->. now rewrite RuneError_not_space in Sp.
      * exact Hsp.
    + exists "". repeat split; [constructor|].
      unfold starts_with_space. now rewrite D.
Qed.

End TrimLeftFuncFacts.

(** * keyValuesFromLine *)

Section EnvLine.

Variable validator_IsEnvVarName : string -> option error.
Variable environ : string -> option string.

Let parseLine := keyValuesFromLine validator_IsEnvVarName environ.

(** The mark is removed from the first line only. *)
Lemma bom_stripped (line : string) (idx : Z) :
  exists bom,
    line = bom ++ (if idx =? 0 then bytes.TrimPrefix line utf8bom else line)
    /\ ((idx = 0 /\ bom = utf8bom)
        \/ ((idx <> 0 \/ ~ (exists t, line = utf8bom ++ t)) /\ bom = "")).
Proof.
  destruct (idx =? 0) eqn:I.
  - apply Z.eqb_eq in I. unfold bytes.TrimPrefix.
    destruct (strings.HasPrefix line utf8bom) eqn:P.
    + destruct (StringsFacts.HasPrefix_inv _ _ P) as [t ->].
      exists utf8bom. rewrite StringsFacts.TrimPrefix_app. auto.
    + exists "". unfold strings.TrimPrefix. rewrite P. split; [reflexivity|].
      right. split; [|reflexivity]. right. intros [t ->].
      now rewrite StringsFacts.HasPrefix_app in P.
  - apply Z.eqb_neq in I. exists "". auto.
Qed.

(** What [keyValuesFromLine] does with a valid line, from the line left
    after the removal of the mark and of the white space. *)
Lemma keyValuesFromLine_rest (line : string) (idx : Z) :
  utf8.Valid line = true ->
  parseLine line idx
  = match bytes.TrimLeftFunc
            (if idx =? 0 then bytes.TrimPrefix line utf8bom else line)
            unicode.IsSpace with
    | EmptyString => (blank, None)
    | String c _ as rest =>
        if Ascii.eqb c hash then (blank, None)
        else
          let data := strings.SplitN rest eq_sign 2 in
          match validator_IsEnvVarName (nth 0 data "") with
          | Some err => (blank, Some err)
          | None =>
              (Build_Pair (nth 0 data "")
                 (if Z.of_nat (List.length data) =? 2 then nth 1 data ""
                  else os_Getenv environ (nth 0 data "")), None)
          end
    end.
Proof.
  intros V. unfold parseLine, keyValuesFromLine. rewrite V.
  cbn [negb]. cbv zeta.
  now destruct (bytes.TrimLeftFunc
                  (if idx =? 0 then bytes.TrimPrefix line utf8bom else line)
                  unicode.IsSpace).
Qed.

(** C7 (amended).  A line that is valid UTF-8 is the byte-order mark,
    removed on line 0 only, then a run of white space runes, then the rest,
    which does not start with
    white space.  An empty rest or one that starts with [#] gives the blank
    pair and no error.  Otherwise the rest is split at its first [=], the
    value being all that follows it; without [=] the rest is the key and
    the value is that of the variable in the environment, empty when it is
    unset.  (The validator's error for the key is returned as it is.) *)
Theorem keyValuesFromLine_grammar (line : string) (idx : Z) :
  utf8.Valid line = true ->
  exists bom ws rest,
    line = bom ++ ws ++ rest
    /\ ((idx = 0 /\ bom = utf8bom)
        \/ ((idx <> 0 \/ ~ (exists t, line = utf8bom ++ t)) /\ bom = ""))
    /\ SpaceRun ws
    /\ starts_with_space rest = false
    /\ (rest = "" \/ head_in rest "#" = true ->
        keyValuesFromLine validator_IsEnvVarName environ line idx
        = (blank, None))
    /\ (rest <> "" -> head_in rest "#" = false ->
        (exists key value,
            rest = key ++ String eq_sign value /\ inb eq_sign key = false
            /\ keyValuesFromLine validator_IsEnvVarName environ line idx
               = match validator_IsEnvVarName key with
                 | Some err => (blank, Some err)
                 | None => (Build_Pair key value, None)
                 end)
        \/ (inb eq_sign rest = false
            /\ keyValuesFromLine validator_IsEnvVarName environ line idx
               = match validator_IsEnvVarName rest with
                 | Some err => (blank, Some err)
                 | None =>
                     (Build_Pair rest
                        match environ rest with
                        | Some v => v
                        | None => ""
                        end, None)
                 end)).
Proof.
  intros V. pose proof (keyValuesFromLine_rest line idx V) as R.
  unfold parseLine in R. rewrite R. clear R.
  destruct (bom_stripped line idx) as (bom & E & Hbom).
  destruct (TrimLeftFuncFacts.TrimLeftFunc_spaces
              (if idx =? 0 then bytes.TrimPrefix line utf8bom else line))
    as (ws & E' & Hws & Hsp).
  set (rest := bytes.TrimLeftFunc
                 (if idx =? 0 then bytes.TrimPrefix line utf8bom else line)
                 unicode.IsSpace) in *.
  exists bom, ws, rest.
  split; [now rewrite <- E'|]. split; [exact Hbom|].
  split; [exact Hws|]. split; [exact Hsp|].
  destruct rest as [|c t] eqn:Hrest.
  { split; [reflexivity|]. now intros []. }
  assert (Hh : head_in (String c t) "#" = Ascii.eqb c hash).
  { simpl. apply orb_false_r. }
  rewrite Hh. destruct (Ascii.eqb c hash) eqn:Hc.
  { split; [reflexivity|]. discriminate. }
  split; [intros [H|H]; discriminate|].
  intros _ _. destruct (inb eq_sign (String c t)) eqn:Hin.
  - left. destruct (split_at_first _ _ Hin) as (key & value & Es & Hk).
    exists key, value. rewrite Es.
    rewrite (StringsFacts.SplitN_2_first _ _ _ Hk).
    split; [reflexivity|]. split; [exact Hk|]. reflexivity.
  - right. split; [reflexivity|].
    rewrite (StringsFacts.SplitN_2_none _ _ Hin). reflexivity.
Qed.

(** A line that is not valid UTF-8: the error is built from the bytes of
    the line, whatever the index of the line. *)
Lemma keyValuesFromLine_invalid (line : string) (idx : Z) :
  utf8.Valid line = false ->
  parseLine line idx
  = (blank, Some (fmt.Errorf ("line " ++ fmt.d_bytes line
                              ++ " has invalid utf8 bytes : " ++ line))).
Proof.
  intros V. unfold parseLine, keyValuesFromLine. now rewrite V.
Qed.

Lemma keyValuesFromLine_invalid_any_index (line : string) (i j : Z) :
  utf8.Valid line = false -> parseLine line i = parseLine line j.
Proof.
  intros V. now rewrite !keyValuesFromLine_invalid.
Qed.

End EnvLine.

Lemma keyValuesFromLine_grammar_witness :
  exists bom ws rest,
    utf8bom ++ "  FOO=bar=baz" = bom ++ ws ++ rest
    /\ ((0 = 0 /\ bom = utf8bom)
        \/ ((0 <> 0
             \/ ~ (exists t, utf8bom ++ "  FOO=bar=baz" = utf8bom ++ t))
            /\ bom = ""))
    /\ SpaceRun ws
    /\ starts_with_space rest = false
    /\ (rest = "" \/ head_in rest "#" = true ->
        keyValuesFromLine sample_validator sample_environ
          (utf8bom ++ "  FOO=bar=baz") 0
        = (blank, None))
    /\ (rest <> "" -> head_in rest "#" = false ->
        (exists key value,
            rest = key ++ String eq_sign value /\ inb eq_sign key = false
            /\ keyValuesFromLine sample_validator sample_environ
                 (utf8bom ++ "  FOO=bar=baz") 0
               = match sample_validator key with
                 | Some err => (blank, Some err)
                 | None => (Build_Pair key value, None)
                 end)
        \/ (inb eq_sign rest = false
            /\ keyValuesFromLine sample_validator sample_environ
                 (utf8bom ++ "  FOO=bar=baz") 0
               = match sample_validator rest with
                 | Some err => (blank, Some err)
                 | None =>
                     (Build_Pair rest
                        match sample_environ rest with
                        | Some v => v
                        | None => ""
                        end, None)
                 end)).
Proof.
  apply (keyValuesFromLine_grammar sample_validator sample_environ
           (utf8bom ++ "  FOO=bar=baz") 0).
  reflexivity.
Defined.

(** C7 (as stated, refuted).  Line 1 of a file, made of [#] and the byte
    255: nothing is stripped from it and it begins with [#], so that the
    skip marker is expected; the line is not valid UTF-8 and the parser
    returns an error. *)
Lemma keyValuesFromLine_comment_invalid_utf8 :
  let line := String hash (String "255" "") in
  bytes.TrimLeftFunc line unicode.IsSpace = line
  /\ head_in line "#" = true
  /\ utf8.Valid line = false
  /\ err_of (keyValuesFromLine sample_validator sample_environ line 1)
     <> None
  /\ keyValuesFromLine sample_validator sample_environ line 1
     <> (blank, None).
Proof. repeat split; discriminate. Qed.

Example keyValuesFromLine_comment :
  keyValuesFromLine sample_validator sample_environ "  # comment" 4
  = (blank, None).
Proof. reflexivity. Qed.

Example keyValuesFromLine_empty :
  keyValuesFromLine sample_validator sample_environ "" 4 = (blank, None).
Proof. reflexivity. Qed.

Example keyValuesFromLine_first_eq_splits :
  keyValuesFromLine sample_validator sample_environ "FOO=bar=baz" 1
  = (Build_Pair "FOO" "bar=baz", None).
Proof. reflexivity. Qed.

Example keyValuesFromLine_from_environment :
  keyValuesFromLine sample_validator sample_environ "FOO" 1
  = (Build_Pair "FOO" "from-env", None)
  /\ keyValuesFromLine sample_validator sample_environ "BAR" 1
     = (Build_Pair "BAR" "", None).
Proof. split; reflexivity. Qed.

Example keyValuesFromLine_bom_first_line_only :
  keyValuesFromLine sample_validator sample_environ (utf8bom ++ "K=v") 0
  = (Build_Pair "K" "v", None)
  /\ keyValuesFromLine sample_validator sample_environ (utf8bom ++ "K=v") 2
     = (Build_Pair (utf8bom ++ "K") "v", None).
Proof. split; reflexivity. Qed.

(** C9 (the code at a failing input).  Line 7 of a file, made of the one
    byte 255, is not valid UTF-8: the message of the error shows the bytes
    of the line where the index of the line is expected, and is the same on
    line 3. *)
Theorem keyValuesFromLine_invalid_utf8_message :
  utf8.Valid (String "255" "") = false
  /\ keyValuesFromLine sample_validator sample_environ (String "255" "") 7
     = (blank,
        Some (errors.New ("line [255] has invalid utf8 bytes : "
                          ++ String "255" "")))
  /\ keyValuesFromLine sample_validator sample_environ (String "255" "") 7
     = keyValuesFromLine sample_validator sample_environ (String "255" "") 3.
Proof. repeat split. Qed.

(** * The loops over the sources *)

Section Loops.

(** A loop of kv.go over a list of sources: the body gives the results of
    one source or an error; the first error ends the loop, with no
    result. *)
Variables A B : Type.
Variable body : A -> list B * option error.
Variable loop : list A -> list B -> list B * option error.

Hypothesis loop_nil : forall acc, loop [] acc = (acc, None).
Hypothesis loop_cons : forall a rest acc,
  loop (a :: rest) acc
  = match body a with
    | (_, Some e) => ([], Some e)
    | (more, None) => loop rest (acc ++ more)%list
    end.

(** A loop that ends without error has run the body on every source, in
    order, and appended the results in that order. *)
Lemma loop_ok sources acc out :
  loop sources acc = (out, None) ->
  exists outs,
    Forall2 (fun a more => body a = (more, None)) sources outs
    /\ out = (acc ++ concat outs)%list.
Proof.
  revert acc. induction sources as [|a rest IH]; intros acc.
  - rewrite loop_nil. intros [= <-]. exists []. split; [constructor|].
    simpl. now rewrite app_nil_r.
  - rewrite loop_cons. destruct (body a) as [more [e|]] eqn:Hb;
      [discriminate|].
    intros H. destruct (IH _ H) as (outs & F & ->).
    exists (more :: outs). split; [now constructor|].
    simpl. now rewrite app_assoc.
Qed.

(** A loop that ends with an error returns no result, and the error is the
    one of the first source on which the body fails. *)
Lemma loop_err sources acc out e :
  loop sources acc = (out, Some e) ->
  out = []
  /\ exists done a rest,
       sources = (done ++ a :: rest)%list
       /\ err_of (body a) = Some e
       /\ Forall (fun d => err_of (body d) = None) done.
Proof.
  revert acc. induction sources as [|a rest IH]; intros acc.
  - rewrite loop_nil. discriminate.
  - rewrite loop_cons. destruct (body a) as [more [e'|]] eqn:Hb.
    + intros [= <- <-]. split; [reflexivity|].
      exists [], a, rest. rewrite Hb. repeat split. constructor.
    + intros H. destruct (IH _ H) as (-> & done & a' & rest' & -> & Ha & F).
      split; [reflexivity|].
      exists (a :: done), a', rest'. repeat split; auto.
      constructor; [now rewrite Hb | exact F].
Qed.

(** A source on which the body fails makes the loop fail. *)
Lemma loop_fails sources acc a :
  In a sources -> err_of (body a) <> None ->
  exists e, loop sources acc = ([], Some e).
Proof.
  intros Hin Hf. destruct (loop sources acc) as [out [e|]] eqn:L.
  - destruct (loop_err _ _ _ _ L) as [-> _]. now exists e.
  - exfalso. destruct (loop_ok _ _ _ L) as (outs & F & _).
    clear L. induction F as [|x more l l' Hx F IH]; [contradiction|].
    destruct Hin as [<- | Hin]; [|now apply IH].
    apply Hf. now rewrite Hx.
Qed.

End Loops.

(** * Load *)

(** The equation of a loop of kv.go at a non-empty list of sources. *)
Ltac loop_equation :=
  intros ? ? ?;
  cbn [keyValuesFromEnvFiles_loop keyValuesFromLiteralSources_loop
       keyValuesFromFileSources_loop getAgeIdentities_explicit];
  unfold one;
  match goal with
  | |- context [let '(_, _) := ?b in _] => destruct b as [? [?|]]
  end; reflexivity.

Section LoadFacts.

Variable ldr_Load : string -> string * option error.
Variable rootLdr_Load : string -> string * option error.
Variable validator_IsEnvVarName : string -> option error.
Variable environ : string -> option string.
Variable filepath_Abs : string -> string * option error.
Variable ioutil_ReadFile : string -> string * option error.
Variable Identity : Type.
Variable age_ParseIdentities : string -> list Identity * option error.
Variable parseSSHIdentity : string -> string -> list Identity * option error.
Variable decryptInlineYAMLWithAge :
  string -> list Identity -> string * option error.
Variable decryptValueWithAge :
  string -> list Identity -> string * option error.

Let identityBody :=
  getAgeIdentities_body rootLdr_Load filepath_Abs Identity
    age_ParseIdentities.
Let identities :=
  getAgeIdentities rootLdr_Load environ filepath_Abs ioutil_ReadFile
    Identity age_ParseIdentities parseSSHIdentity.
Let envBody :=
  keyValuesFromEnvFiles_body ldr_Load validator_IsEnvVarName environ
    Identity decryptValueWithAge.
Let envStage :=
  keyValuesFromEnvFiles ldr_Load validator_IsEnvVarName environ
    Identity decryptValueWithAge.
Let literalBody :=
  keyValuesFromLiteralSources_body Identity decryptInlineYAMLWithAge
    decryptValueWithAge.
Let literalStage :=
  keyValuesFromLiteralSources Identity decryptInlineYAMLWithAge
    decryptValueWithAge.
Let fileBody :=
  keyValuesFromFileSources_body ldr_Load Identity decryptInlineYAMLWithAge
    decryptValueWithAge.
Let fileStage :=
  keyValuesFromFileSources ldr_Load Identity decryptInlineYAMLWithAge
    decryptValueWithAge.
Let load :=
  Load ldr_Load rootLdr_Load validator_IsEnvVarName environ filepath_Abs
    ioutil_ReadFile Identity age_ParseIdentities parseSSHIdentity
    decryptInlineYAMLWithAge decryptValueWithAge.

Lemma Forall2_one {B : Type} (body : string -> B * option error)
  (sources : list string) (outs : list (list B)) :
  Forall2 (fun s more => one (body s) = (more, None)) sources outs ->
  Forall2 (fun s kv => body s = (kv, None)) sources (concat outs).
Proof.
  induction 1 as [|s more l l' H F IH]; simpl; [constructor|].
  unfold one in H. destruct (body s) as [kv err] eqn:E. simpl in H.
  injection H as <- ->. simpl. constructor; [exact E | exact IH].
Qed.

Lemma envStage_ok paths ids out :
  envStage paths ids = (out, None) ->
  exists envs,
    Forall2 (fun p more => envBody p ids = (more, None)) paths envs
    /\ out = concat envs.
Proof.
  intros H.
  apply (loop_ok _ _ (fun p => envBody p ids)
           (fun l acc =>
              keyValuesFromEnvFiles_loop ldr_Load validator_IsEnvVarName
                environ Identity decryptValueWithAge l ids acc)) in H;
    [exact H | reflexivity |].
  unfold envBody. loop_equation.
Qed.

Lemma envStage_err paths ids out e :
  envStage paths ids = (out, Some e) ->
  out = [] /\ exists p, In p paths /\ err_of (envBody p ids) = Some e.
Proof.
  intros H.
  apply (loop_err _ _ (fun p => envBody p ids)
           (fun l acc =>
              keyValuesFromEnvFiles_loop ldr_Load validator_IsEnvVarName
                environ Identity decryptValueWithAge l ids acc)) in H.
  - destruct H as (-> & done & a & rest & -> & Ha & _).
    split; [reflexivity|]. exists a. split; [|exact Ha].
    apply in_or_app. right. now left.
  - reflexivity.
  - unfold envBody. loop_equation.
Qed.

Lemma literalStage_ok sources ids out :
  literalStage sources ids = (out, None) ->
  Forall2 (fun s kv => literalBody s ids = (kv, None)) sources out.
Proof.
  intros H.
  apply (loop_ok _ _ (fun s => one (literalBody s ids))
           (fun l acc =>
              keyValuesFromLiteralSources_loop Identity
                decryptInlineYAMLWithAge decryptValueWithAge l ids acc))
    in H.
  - destruct H as (outs & F & ->). now apply Forall2_one in F.
  - reflexivity.
  - unfold literalBody. loop_equation.
Qed.

Lemma literalStage_err sources ids out e :
  literalStage sources ids = (out, Some e) ->
  out = [] /\ exists s, In s sources /\ err_of (literalBody s ids) = Some e.
Proof.
  intros H.
  apply (loop_err _ _ (fun s => one (literalBody s ids))
           (fun l acc =>
              keyValuesFromLiteralSources_loop Identity
                decryptInlineYAMLWithAge decryptValueWithAge l ids acc))
    in H.
  - destruct H as (-> & done & a & rest & -> & Ha & _).
    split; [reflexivity|]. exists a. split; [|exact Ha].
    apply in_or_app. right. now left.
  - reflexivity.
  - unfold literalBody. loop_equation.
Qed.

Lemma fileStage_ok sources ids out :
  fileStage sources ids = (out, None) ->
  Forall2 (fun s kv => fileBody s ids = (kv, None)) sources out.
Proof.
  intros H.
  apply (loop_ok _ _ (fun s => one (fileBody s ids))
           (fun l acc =>
              keyValuesFromFileSources_loop ldr_Load Identity
                decryptInlineYAMLWithAge decryptValueWithAge l ids acc))
    in H.
  - destruct H as (outs & F & ->). now apply Forall2_one in F.
  - reflexivity.
  - unfold fileBody. loop_equation.
Qed.

Lemma fileStage_err sources ids out e :
  fileStage sources ids = (out, Some e) ->
  out = [] /\ exists s, In s sources /\ err_of (fileBody s ids) = Some e.
Proof.
  intros H.
  apply (loop_err _ _ (fun s => one (fileBody s ids))
           (fun l acc =>
              keyValuesFromFileSources_loop ldr_Load Identity
                decryptInlineYAMLWithAge decryptValueWithAge l ids acc))
    in H.
  - destruct H as (-> & done & a & rest & -> & Ha & _).
    split; [reflexivity|]. exists a. split; [|exact Ha].
    apply in_or_app. right. now left.
  - reflexivity.
  - unfold fileBody. loop_equation.
Qed.

Lemma identities_err sources out e :
  identities sources = (out, Some e) ->
  out = []
  /\ exists path, In path sources /\ err_of (identityBody path) = Some e.
Proof.
  unfold identities, getAgeIdentities.
  destruct (getAgeIdentities_explicit rootLdr_Load filepath_Abs Identity
              age_ParseIdentities sources []) as [ids [e'|]] eqn:H;
    [|discriminate].
  intros [= <- <-].
  apply (loop_err _ _ identityBody
           (getAgeIdentities_explicit rootLdr_Load filepath_Abs Identity
              age_ParseIdentities)) in H.
  - destruct H as (_ & done & a & rest & -> & Ha & _).
    split; [reflexivity|]. exists a. split; [|exact Ha].
    apply in_or_app. right. now left.
  - reflexivity.
  - unfold identityBody. loop_equation.
Qed.

Lemma identities_ok sources ids path :
  identities sources = (ids, None) -> In path sources ->
  err_of (identityBody path) = None.
Proof.
  unfold identities, getAgeIdentities.
  destruct (getAgeIdentities_explicit rootLdr_Load filepath_Abs Identity
              age_ParseIdentities sources []) as [ids' [e'|]] eqn:H;
    [discriminate|].
  intros _ Hin.
  apply (loop_ok _ _ identityBody
           (getAgeIdentities_explicit rootLdr_Load filepath_Abs Identity
              age_ParseIdentities)) in H.
  - destruct H as (outs & F & _).
    induction F as [|x more l l' Hx F IH]; [contradiction|].
    destruct Hin as [<- | Hin]; [now rewrite Hx | now apply IH].
  - reflexivity.
  - unfold identityBody. loop_equation.
Qed.

Lemma Forall2_no_error {B : Type} (body : string -> B * option error)
  (sources : list string) (outs : list B) (s : string) :
  Forall2 (fun s out => body s = (out, None)) sources outs ->
  In s sources -> err_of (body s) = None.
Proof.
  induction 1 as [|x out l l' Hx F IH]; [contradiction|].
  intros [<- | Hin]; [now rewrite Hx | now apply IH].
Qed.

(** C1.  When [Load] succeeds, the pairs returned are those of the env
    files, then those of the literal sources, then those of the file
    sources; the pairs of the env files are those of each path in the
    order of [EnvSources], and the literal and the file sources each give
    one pair, in the order of [LiteralSources] and of [FileSources]. *)
Theorem Load_order (args : KvPairSources) (all : list Pair) :
  Load ldr_Load rootLdr_Load validator_IsEnvVarName environ filepath_Abs
    ioutil_ReadFile Identity age_ParseIdentities parseSSHIdentity
    decryptInlineYAMLWithAge decryptValueWithAge args = (all, None) ->
  exists ids envs lits files,
    getAgeIdentities rootLdr_Load environ filepath_Abs ioutil_ReadFile
      Identity age_ParseIdentities parseSSHIdentity
      (AgeIdentitySources args) = (ids, None)
    /\ all = (concat envs ++ lits ++ files)%list
    /\ Forall2
         (fun p more =>
            keyValuesFromEnvFiles_body ldr_Load validator_IsEnvVarName
              environ Identity decryptValueWithAge p ids = (more, None))
         (EnvSources args) envs
    /\ Forall2
         (fun s kv =>
            keyValuesFromLiteralSources_body Identity
              decryptInlineYAMLWithAge decryptValueWithAge s ids
            = (kv, None))
         (LiteralSources args) lits
    /\ Forall2
         (fun s kv =>
            keyValuesFromFileSources_body ldr_Load Identity
              decryptInlineYAMLWithAge decryptValueWithAge s ids
            = (kv, None))
         (FileSources args) files.
Proof.
  unfold Load. fold identities envStage literalStage fileStage.
  destruct (identities (AgeIdentitySources args)) as [ids [e|]] eqn:G;
    [discriminate|].
  destruct (envStage (EnvSources args) ids) as [envPairs [e|]] eqn:E;
    [discriminate|].
  destruct (literalStage (LiteralSources args) ids) as [lits [e|]] eqn:L;
    [discriminate|].
  destruct (fileStage (FileSources args) ids) as [files [e|]] eqn:F;
    [discriminate|].
  intros [= <-].
  destruct (envStage_ok _ _ _ E) as (envs & FE & ->).
  exists ids, envs, lits, files.
  split; [reflexivity|]. split; [now rewrite <- app_assoc|].
  split; [exact FE|].
  split; [now apply literalStage_ok | now apply fileStage_ok].
Qed.

(** C2.  When one source of a category cannot be processed (an identity
    file, an env file, a literal source or a file source), [Load] returns
    no pair and an error: the error of a source that failed, wrapped with
    the name of the category of that source and the list of the sources of
    that category. *)
Theorem Load_failure (args : KvPairSources) :
  ((exists path,
       In path (AgeIdentitySources args)
       /\ err_of (getAgeIdentities_body rootLdr_Load filepath_Abs Identity
                    age_ParseIdentities path) <> None)
   \/ (exists ids,
          getAgeIdentities rootLdr_Load environ filepath_Abs
            ioutil_ReadFile Identity age_ParseIdentities parseSSHIdentity
            (AgeIdentitySources args) = (ids, None)
          /\ ((exists p,
                  In p (EnvSources args)
                  /\ err_of (keyValuesFromEnvFiles_body ldr_Load
                               validator_IsEnvVarName environ Identity
                               decryptValueWithAge p ids) <> None)
              \/ (exists s,
                     In s (LiteralSources args)
                     /\ err_of (keyValuesFromLiteralSources_body Identity
                                  decryptInlineYAMLWithAge
                                  decryptValueWithAge s ids) <> None)
              \/ (exists s,
                     In s (FileSources args)
                     /\ err_of (keyValuesFromFileSources_body ldr_Load
                                  Identity decryptInlineYAMLWithAge
                                  decryptValueWithAge s ids) <> None)))) ->
  exists e category inputs,
    Load ldr_Load rootLdr_Load validator_IsEnvVarName environ filepath_Abs
      ioutil_ReadFile Identity age_ParseIdentities parseSSHIdentity
      decryptInlineYAMLWithAge decryptValueWithAge args
    = ([], Some (errors.Wrap e (category ++ fmt.v_strings inputs)))
    /\ ((category = "age identity source files: "
         /\ inputs = AgeIdentitySources args
         /\ exists path,
              In path inputs
              /\ err_of (getAgeIdentities_body rootLdr_Load filepath_Abs
                           Identity age_ParseIdentities path) = Some e)
        \/ (exists ids,
               getAgeIdentities rootLdr_Load environ filepath_Abs
                 ioutil_ReadFile Identity age_ParseIdentities
                 parseSSHIdentity (AgeIdentitySources args) = (ids, None)
               /\ ((category = "env source files: "
                    /\ inputs = EnvSources args
                    /\ exists p,
                         In p inputs
                         /\ err_of (keyValuesFromEnvFiles_body ldr_Load
                                      validator_IsEnvVarName environ
                                      Identity decryptValueWithAge p ids)
                            = Some e)
                   \/ (category = "literal sources "
                       /\ inputs = LiteralSources args
                       /\ exists s,
                            In s inputs
                            /\ err_of (keyValuesFromLiteralSources_body
                                         Identity decryptInlineYAMLWithAge
                                         decryptValueWithAge s ids)
                               = Some e)
                   \/ (category = "file sources: "
                       /\ inputs = FileSources args
                       /\ exists s,
                            In s inputs
                            /\ err_of (keyValuesFromFileSources_body
                                         ldr_Load Identity
                                         decryptInlineYAMLWithAge
                                         decryptValueWithAge s ids)
                               = Some e)))).
Proof.
  fold identityBody identities envBody literalBody fileBody.
  intros H. unfold Load. fold identities envStage literalStage fileStage.
  destruct (identities (AgeIdentitySources args)) as [ids [e|]] eqn:G.
  { destruct (identities_err _ _ _ G) as [_ Hp].
    exists e, "age identity source files: ", (AgeIdentitySources args).
    split; [reflexivity|]. left. auto. }
  destruct H as [(path & Hin & Hf) | (ids' & [= <-] & H)].
  { exfalso. apply Hf. exact (identities_ok _ _ _ G Hin). }
  destruct (envStage (EnvSources args) ids) as [envPairs [e|]] eqn:E.
  { destruct (envStage_err _ _ _ _ E) as [_ Hp].
    exists e, "env source files: ", (EnvSources args).
    split; [reflexivity|]. right. exists ids. split; [reflexivity|]. auto. }
  destruct (literalStage (LiteralSources args) ids) as [lits [e|]] eqn:L.
  { destruct (literalStage_err _ _ _ _ L) as [_ Hp].
    exists e, "literal sources ", (LiteralSources args).
    split; [reflexivity|]. right. exists ids. split; [reflexivity|]. auto. }
  destruct (fileStage (FileSources args) ids) as [files [e|]] eqn:F.
  { destruct (fileStage_err _ _ _ _ F) as [_ Hp].
    exists e, "file sources: ", (FileSources args).
    split; [reflexivity|]. right. exists ids. split; [reflexivity|]. auto. }
  exfalso.
  destruct (envStage_ok _ _ _ E) as (envs & FE & _).
  apply literalStage_ok in L. apply fileStage_ok in F.
  destruct H as [(p & Hin & Hf) | [(s & Hin & Hf) | (s & Hin & Hf)]];
    apply Hf.
  - exact (Forall2_no_error _ _ _ _ FE Hin).
  - exact (Forall2_no_error _ _ _ _ L Hin).
  - exact (Forall2_no_error _ _ _ _ F Hin).
Qed.

(** X13.  [Load] returns the whole list or nothing: with an error there
    is no pair, and the error is that of a source, wrapped with the name of its
    category and the sources of the category. *)
Lemma Load_error_inv (args : KvPairSources) (out : list Pair) (err : error) :
  load args = (out, Some err) ->
  out = []
  /\ exists e category inputs,
       err = errors.Wrap e (category ++ fmt.v_strings inputs)
       /\ ((category = "age identity source files: "
            /\ inputs = AgeIdentitySources args)
           \/ (category = "env source files: "
               /\ inputs = EnvSources args)
           \/ (category = "literal sources "
               /\ inputs = LiteralSources args)
           \/ (category = "file sources: "
               /\ inputs = FileSources args)).
Proof.
  unfold load, Load. fold identities envStage literalStage fileStage.
  destruct (identities (AgeIdentitySources args)) as [ids [e0|]].
  { intros [= <- <-]. split; [reflexivity|].
    exists e0, "age identity source files: ", (AgeIdentitySources args).
    auto. }
  destruct (envStage (EnvSources args) ids) as [envPairs [e1|]].
  { intros [= <- <-]. split; [reflexivity|].
    exists e1, "env source files: ", (EnvSources args). auto. }
  destruct (literalStage (LiteralSources args) ids) as [lits [e2|]].
  { intros [= <- <-]. split; [reflexivity|].
    exists e2, "literal sources ", (LiteralSources args). auto 6. }
  destruct (fileStage (FileSources args) ids) as [files [e3|]].
  { intros [= <- <-]. split; [reflexivity|].
    exists e3, "file sources: ", (FileSources args). auto 6. }
  discriminate.
Qed.

End LoadFacts.

(** * Load on concrete sources *)

Lemma Load_order_witness :
  exists ids envs lits files,
    sample_identities (AgeIdentitySources sample_args) = (ids, None)
    /\ [Build_Pair "A" "1"; Build_Pair "FOO" "from-env";
        Build_Pair "x" "1"; Build_Pair "y" "2"; Build_Pair "k" "hello"]
       = (concat envs ++ lits ++ files)%list
    /\ Forall2 (fun p more => sample_envBody p ids = (more, None))
         (EnvSources sample_args) envs
    /\ Forall2 (fun s kv => sample_literalBody s ids = (kv, None))
         (LiteralSources sample_args) lits
    /\ Forall2 (fun s kv => sample_fileBody s ids = (kv, None))
         (FileSources sample_args) files.
Proof.
  apply (Load_order sample_ldr sample_ldr sample_validator sample_environ
           sample_abs sample_readfile unit sample_parse sample_ssh
           sample_inline sample_whole sample_args).
  reflexivity.
Defined.

Lemma Load_failure_witness :
  exists e category inputs,
    sample_Load sample_args_bad_literal
    = ([], Some (errors.Wrap e (category ++ fmt.v_strings inputs)))
    /\ ((category = "age identity source files: "
         /\ inputs = AgeIdentitySources sample_args_bad_literal
         /\ exists path,
              In path inputs /\ err_of (sample_identityBody path) = Some e)
        \/ (exists ids,
               sample_identities (AgeIdentitySources sample_args_bad_literal)
               = (ids, None)
               /\ ((category = "env source files: "
                    /\ inputs = EnvSources sample_args_bad_literal
                    /\ exists p,
                         In p inputs
                         /\ err_of (sample_envBody p ids) = Some e)
                   \/ (category = "literal sources "
                       /\ inputs = LiteralSources sample_args_bad_literal
                       /\ exists s,
                            In s inputs
                            /\ err_of (sample_literalBody s ids) = Some e)
                   \/ (category = "file sources: "
                       /\ inputs = FileSources sample_args_bad_literal
                       /\ exists s,
                            In s inputs
                            /\ err_of (sample_fileBody s ids) = Some e)))).
Proof.
  apply (Load_failure sample_ldr sample_ldr sample_validator sample_environ
           sample_abs sample_readfile unit sample_parse sample_ssh
           sample_inline sample_whole sample_args_bad_literal).
  right. exists []. split; [reflexivity|].
  right. left. exists "novalue". split; [simpl; auto | discriminate].
Defined.

(** With one invalid literal source among valid env and file sources the
    call fails as a whole. *)
Example Load_bad_literal :
  sample_Load sample_args_bad_literal
  = ([], Some (errors.Wrap
                 (errors.New
                    "invalid literal source novalue, expected key=value")
                 "literal sources [x=1 novalue]")).
Proof. reflexivity. Qed.

(** * The [.age] suffix of a key *)

Module TrimRightFacts.

Lemma TrimRight_all_in s cutset :
  all_in s cutset = true -> strings.TrimRight s cutset = "".
Proof.
  induction s as [|c s IH]; simpl; [reflexivity|].
  intros H. apply andb_prop in H as [Hc Hs]. now rewrite (IH Hs), Hc.
Qed.

(** Where the key without its suffix does not end with a byte of the
    suffix, trimming by cut set and removing the suffix agree. *)
Lemma TrimRight_suffix p suf cutset :
  all_in suf cutset = true -> last_in p cutset = false ->
  strings.TrimRight (p ++ suf) cutset = p.
Proof.
  intros Hs. induction p as [|c p IH]; intros Hl.
  - now apply TrimRight_all_in.
  - cbn [append strings.TrimRight]. destruct p as [|d p].
    + cbn [append]. rewrite (TrimRight_all_in _ _ Hs).
      simpl in Hl. now rewrite Hl.
    + now rewrite (IH Hl).
Qed.

End TrimRightFacts.

Section AgeKeys.

Variable ldr_Load : string -> string * option error.
Variable Identity : Type.
Variable decryptInlineYAMLWithAge :
  string -> list Identity -> string * option error.
Variable decryptValueWithAge :
  string -> list Identity -> string * option error.

Lemma age_cutset : all_in ".age" ".age" = true.
Proof. reflexivity. Qed.

(** X20.  Where the key without [.age] does not end with one of the bytes
    of [.age], a literal source gives that key, and its value is decrypted as
    inline YAML when that key ends in [.yaml] or [.yml], as a whole
    otherwise. *)
Lemma literal_age_key (s p v : string) (ids : list Identity) :
  parseLiteralSource s = (p ++ ".age", v, None) ->
  last_in p ".age" = false ->
  keyValuesFromLiteralSources_body Identity decryptInlineYAMLWithAge
    decryptValueWithAge s ids
  = let '(content, err) :=
      if strings.HasSuffix p ".yaml" || strings.HasSuffix p ".yml"
      then decryptInlineYAMLWithAge v ids
      else decryptValueWithAge v ids in
    match err with
    | Some e => (blank, Some e)
    | None => (Build_Pair p content, None)
    end.
Proof.
  intros H L. unfold keyValuesFromLiteralSources_body. rewrite H.
  rewrite StringsFacts.HasSuffix_app.
  now rewrite (TrimRightFacts.TrimRight_suffix _ _ _ age_cutset L).
Qed.

(** X21.  The same for a file source whose path ends in [.age]; the
    content that starts with the armor header is decrypted as a whole. *)
Lemma file_age_key (s p fPath content : string) (ids : list Identity) :
  parseFileSource s = (p ++ ".age", fPath, None) ->
  ldr_Load fPath = (content, None) ->
  strings.HasSuffix fPath ".age" = true ->
  last_in p ".age" = false ->
  keyValuesFromFileSources_body ldr_Load Identity decryptInlineYAMLWithAge
    decryptValueWithAge s ids
  = let '(content, err) :=
      if (strings.HasSuffix p ".yaml" || strings.HasSuffix p ".yml")
         && negb (bytes.HasPrefix content armor.Header)
      then decryptInlineYAMLWithAge content ids
      else decryptValueWithAge content ids in
    match err with
    | Some e => (blank, Some e)
    | None => (Build_Pair p content, None)
    end.
Proof.
  intros H Hl Hs L. unfold keyValuesFromFileSources_body.
  rewrite H, Hl, Hs.
  now rewrite (TrimRightFacts.TrimRight_suffix _ _ _ age_cutset L).
Qed.

End AgeKeys.

(** C4 (the code at a failing input).  The key of the literal source
    [image.age=secret] is [image.age]; without its suffix it is [image],
    and the pair that is emitted has the key [im]. *)
Theorem literal_age_key_trimmed_by_cutset :
  parseLiteralSource "image.age=secret" = ("image.age", "secret", None)
  /\ strings.TrimSuffix "image.age" ".age" = "image"
  /\ sample_literalBody "image.age=secret" []
     = (Build_Pair "im" "whole(secret)", None).
Proof. repeat split. Qed.

(** The same trimming makes a key that ends in [.yaml.age.age] lose both
    suffixes, and its value is then decrypted as inline YAML. *)
Example literal_age_key_mode :
  strings.TrimSuffix "notes.yaml.age.age" ".age" = "notes.yaml.age"
  /\ sample_literalBody "notes.yaml.age.age=c" []
     = (Build_Pair "notes.yaml" "inline(c)", None).
Proof. repeat split. Qed.

(** C3 (the code at a failing input).  The file source [conf/image.age]
    has the key [image.age] and a path that ends in [.age]; the key
    without its suffix is [image], and the pair that is emitted has the
    key [im]. *)
Theorem file_age_key_trimmed_by_cutset :
  parseFileSource "conf/image.age" = ("image.age", "conf/image.age", None)
  /\ strings.TrimSuffix "image.age" ".age" = "image"
  /\ sample_fileBody "conf/image.age" []
     = (Build_Pair "im" "whole(ciphertext)", None).
Proof. repeat split. Qed.

(** A key given apart from the path is trimmed too, with no suffix to
    remove. *)
Example file_age_explicit_key :
  sample_fileBody "image=conf/image.age" []
  = (Build_Pair "im" "whole(ciphertext)", None).
Proof. reflexivity. Qed.

(** A source that parses without error is a key, [=] and a raw value. *)
Lemma parseLiteralSource_error_free (source k v : string) :
  parseLiteralSource source = (k, v, None) ->
  exists raw,
    k <> "" /\ inb eq_sign k = false
    /\ v = strings.Trim raw quoteCutset.
Proof.
  intros H. destruct (inb eq_sign source) eqn:Hin.
  - destruct (split_at_first _ _ Hin) as (k0 & raw & -> & Hk0).
    destruct k0 as [|c k0].
    + simpl in H. rewrite parseLiteralSource_leading_eq in H. discriminate.
    + assert (Hk : String c k0 <> "") by discriminate.
      rewrite (parseLiteralSource_split _ raw Hk Hk0) in H.
      injection H as <- <-. now exists raw.
  - rewrite (parseLiteralSource_no_eq _ Hin) in H. discriminate.
Qed.

(** * More on parseFileSource and parseLiteralSource *)

Module PathFacts.

Lemma afterLastSlash_suffix s : exists pre, s = pre ++ path.afterLastSlash s.
Proof.
  induction s as [|c s [pre E]]; simpl; [now exists ""|].
  destruct (0 <? strings.Count s slash).
  - exists (String c pre). simpl. now rewrite <- E.
  - destruct (Ascii.eqb c slash).
    + now exists (String c "").
    + now exists "".
Qed.

Lemma afterLastSlash_no_slash s : inb slash (path.afterLastSlash s) = false.
Proof.
  induction s as [|c s IH]; simpl; [reflexivity|].
  destruct (0 <? strings.Count s slash) eqn:C; [exact IH|].
  apply Z.ltb_ge in C. pose proof (StringsFacts.Count_nonneg s slash).
  assert (Hs : inb slash s = false)
    by (apply StringsFacts.Count_zero; lia).
  destruct (Ascii.eqb c slash) eqn:E; [exact Hs|].
  cbn [inb]. now rewrite (Ascii.eqb_sym slash c), E, Hs.
Qed.

Lemma Base_nonempty p : path.Base p <> "".
Proof.
  unfold path.Base. destruct (String.eqb p ""); [discriminate|].
  destruct (String.eqb (path.afterLastSlash (strings.TrimRight p "/")) "")
    eqn:E; [discriminate|].
  now apply String.eqb_neq in E.
Qed.

(** The base name has no directory part. *)
Lemma Base_no_slash p : inb slash (path.Base p) = false \/ path.Base p = "/".
Proof.
  unfold path.Base. destruct (String.eqb p ""); [now left|].
  destruct (String.eqb (path.afterLastSlash (strings.TrimRight p "/")) "");
    [now right|].
  left. apply afterLastSlash_no_slash.
Qed.

(** A byte of the base name other than the dot and the slash is a byte of
    the path. *)
Lemma Base_bytes p b :
  inb b p = false -> inb b "./" = false -> inb b (path.Base p) = false.
Proof.
  intros Hp Hb. unfold path.Base.
  destruct (String.eqb p "").
  { simpl in *. now destruct (Ascii.eqb b "."). }
  destruct (String.eqb (path.afterLastSlash (strings.TrimRight p "/")) "").
  { simpl in *. destruct (Ascii.eqb b "."); [discriminate|].
    now destruct (Ascii.eqb b "/"). }
  destruct (TrimFacts.TrimRight_decomp p "/") as (r & E & _).
  destruct (afterLastSlash_suffix (strings.TrimRight p "/")) as (pre & E').
  rewrite E, E', !inb_app in Hp.
  now destruct (inb b pre),
    (inb b (path.afterLastSlash (strings.TrimRight p "/"))).
Qed.

End PathFacts.

(** X1.  What [parseFileSource] returns without error: the key is never
    empty and neither the key nor the path holds [=]; either the source has
    no [=], the path is the whole source and the key its base name, without
    directory part, or the source is the key, one [=] and a path that is
    not empty. *)
Theorem parseFileSource_ok_inv (source k p : string) :
  parseFileSource source = (k, p, None) ->
  k <> "" /\ inb eq_sign k = false /\ inb eq_sign p = false
  /\ ((source = p /\ k = path.Base source
       /\ (inb slash k = false \/ k = "/"))
      \/ (source = k ++ String eq_sign p /\ p <> "")).
Proof.
  intros H. destruct (inb eq_sign source) eqn:Hin.
  - destruct (split_at_first _ _ Hin) as (k0 & p0 & -> & Hk0).
    destruct (inb eq_sign p0) eqn:Hp0.
    { exfalso. unfold parseFileSource in H.
      rewrite StringsFacts.Count_app in H.
      change (strings.Count (String eq_sign p0) eq_sign)
        with (1 + strings.Count p0 eq_sign) in H.
      apply StringsFacts.Count_pos in Hp0.
      pose proof (StringsFacts.Count_nonneg k0 eq_sign) as Hn.
      set (n := strings.Count k0 eq_sign + (1 + strings.Count p0 eq_sign))
        in *.
      assert (Hgt : 1 < n) by (unfold n; lia).
      destruct (n =? 0) eqn:E0; [lia|].
      destruct (n =? 1) eqn:E1; [lia|]. cbn [andb] in H.
      destruct (n >? 1) eqn:E2; [discriminate | lia]. }
    destruct k0 as [|c k0].
    { simpl in H. rewrite (parseFileSource_missing_key _ Hp0) in H.
      discriminate. }
    assert (Hk : String c k0 <> "") by discriminate.
    destruct p0 as [|d p0].
    { change (String c k0 ++ String eq_sign "")
        with (String c k0 ++ "=") in H.
      rewrite (parseFileSource_missing_path _ Hk Hk0) in H. discriminate. }
    assert (Hp : String d p0 <> "") by discriminate.
    rewrite (parseFileSource_split _ _ Hk Hp Hk0 Hp0) in H.
    injection H as <- <-. repeat split; auto.
  - unfold parseFileSource in H.
    apply StringsFacts.Count_zero in Hin as Hc. rewrite Hc in H.
    cbn [Z.eqb] in H. injection H as <- <-.
    split; [apply PathFacts.Base_nonempty|].
    split; [now apply PathFacts.Base_bytes|].
    split; [exact Hin|]. left.
    repeat split. apply PathFacts.Base_no_slash.
Qed.

Lemma parseFileSource_ok_inv_witness :
  "foo.txt" <> "" /\ inb eq_sign "foo.txt" = false
  /\ inb eq_sign "path/to/foo.txt" = false
  /\ (("path/to/foo.txt" = "path/to/foo.txt"
       /\ "foo.txt" = path.Base "path/to/foo.txt"
       /\ (inb slash "foo.txt" = false \/ "foo.txt" = "/"))
      \/ ("path/to/foo.txt" = "foo.txt" ++ String eq_sign "path/to/foo.txt"
          /\ "path/to/foo.txt" <> "")).
Proof.
  apply (parseFileSource_ok_inv "path/to/foo.txt"). reflexivity.
Defined.

Module QuoteFacts.

Lemma TrimLeft_id s cutset :
  head_in s cutset = false -> strings.TrimLeft s cutset = s.
Proof. destruct s as [|c s]; simpl; [reflexivity | now intros ->]. Qed.

Lemma TrimRight_id s cutset :
  last_in s cutset = false -> strings.TrimRight s cutset = s.
Proof.
  intros H. rewrite <- (append_nil_r s) at 1.
  now apply TrimRightFacts.TrimRight_suffix.
Qed.

Lemma Trim_id s cutset :
  head_in s cutset = false -> last_in s cutset = false ->
  strings.Trim s cutset = s.
Proof.
  intros Hh Hl. unfold strings.Trim.
  now rewrite (TrimRight_id _ _ Hl), (TrimLeft_id _ _ Hh).
Qed.

End QuoteFacts.

(** X2.  Writing a key, [=] and a value, then parsing, gives the key and
    the value back, for a key that is not empty and has no [=] and a value
    that neither starts nor ends with a quote ([=] inside the value
    included). *)
Theorem parseLiteralSource_roundtrip (k v : string) :
  k <> "" -> inb eq_sign k = false ->
  head_in v quoteCutset = false -> last_in v quoteCutset = false ->
  parseLiteralSource (k ++ String eq_sign v) = (k, v, None).
Proof.
  intros Hk Hne Hh Hl. rewrite (parseLiteralSource_split _ _ Hk Hne).
  now rewrite (QuoteFacts.Trim_id _ _ Hh Hl).
Qed.

Lemma parseLiteralSource_roundtrip_witness :
  parseLiteralSource ("url" ++ String eq_sign "http://h/?a=b") 
  = ("url", "http://h/?a=b", None).
Proof.
  apply (parseLiteralSource_roundtrip "url" "http://h/?a=b");
    [discriminate | reflexivity | reflexivity | reflexivity].
Defined.

(** X3.  Parsing is stable under its own quote stripping: the value
    returned for a source, put back after the key, parses to itself. *)
Theorem parseLiteralSource_value_stable (source k v : string) :
  parseLiteralSource source = (k, v, None) ->
  parseLiteralSource (k ++ String eq_sign v) = (k, v, None).
Proof.
  intros H.
  destruct (parseLiteralSource_error_free source k v H)
    as (raw & Hk & Hne & ->).
  destruct (TrimFacts.Trim_decomp raw quoteCutset)
    as (l & r & _ & _ & _ & Hh & Hl).
  rewrite (parseLiteralSource_split _ _ Hk Hne).
  now rewrite (QuoteFacts.Trim_id _ _ Hh Hl).
Qed.

Lemma parseLiteralSource_value_stable_witness :
  parseLiteralSource ("k" ++ String eq_sign "x") = ("k", "x", None).
Proof.
  apply (parseLiteralSource_value_stable
           ("k=" ++ String squote ("x" ++ String dquote ""))).
  reflexivity.
Defined.

(** * Env files *)

Section EnvFile.

Variable validator_IsEnvVarName : string -> option error.
Variable environ : string -> option string.

Let parseLine := keyValuesFromLine validator_IsEnvVarName environ.
Let linesLoop := keyValuesFromLines_loop validator_IsEnvVarName environ.

Lemma len_zero s : (len s =? 0) = true <-> s = "".
Proof.
  unfold len. destruct s; cbn [String.length]; [now split|].
  split; [intros H; apply Z.eqb_eq in H; lia | discriminate].
Qed.

(** The key of the pair of a line has been through the validator, and it
    has no [=]. *)
Lemma keyValuesFromLine_key (line : string) (idx : Z) (kv : Pair) :
  parseLine line idx = (kv, None) -> Key kv <> "" ->
  validator_IsEnvVarName (Key kv) = None /\ inb eq_sign (Key kv) = false.
Proof.
  intros H Hk. destruct (utf8.Valid line) eqn:V.
  2:{ unfold parseLine in H.
      rewrite (keyValuesFromLine_invalid _ _ _ _ V) in H. discriminate. }
  unfold parseLine in H. rewrite (keyValuesFromLine_rest _ _ _ _ V) in H.
  destruct (bytes.TrimLeftFunc _ _) as [|c t];
    [injection H as <-; now contradiction Hk|].
  destruct (Ascii.eqb c hash); [injection H as <-; now contradiction Hk|].
  remember (String c t) as rest eqn:R. clear R. cbv zeta in H.
  destruct (validator_IsEnvVarName
              (nth 0 (strings.SplitN rest eq_sign 2) ""))
    eqn:Hv; [discriminate|].
  injection H as <-. unfold Key. split; [exact Hv|].
  destruct (inb eq_sign rest) eqn:Hin.
  - destruct (split_at_first _ _ Hin) as (k0 & v0 & Es & Hk0).
    rewrite Es. now rewrite (StringsFacts.SplitN_2_first _ _ _ Hk0).
  - now rewrite (StringsFacts.SplitN_2_none _ _ Hin).
Qed.

(** X4.  A white space byte put before a valid line does not change what
    the line parses to (on line 0: for a line that does not start with the
    byte-order mark). *)
Theorem keyValuesFromLine_indent (c : byte) (line : string) (idx : Z) :
  utf8.Valid line = true ->
  byte_val c < utf8.RuneSelf -> unicode.IsSpace (byte_val c) = true ->
  idx <> 0 \/ strings.HasPrefix line utf8bom = false ->
  keyValuesFromLine validator_IsEnvVarName environ (String c line) idx
  = keyValuesFromLine validator_IsEnvVarName environ line idx.
Proof.
  intros V Hc Hs Hb. apply Z.ltb_lt in Hc.
  assert (V' : utf8.Valid (String c line) = true).
  { cbn [utf8.Valid]. now rewrite Hc. }
  rewrite (keyValuesFromLine_rest _ _ _ _ V).
  rewrite (keyValuesFromLine_rest _ _ _ _ V').
  assert (Hp : bytes.TrimPrefix (String c line) utf8bom = String c line).
  { unfold bytes.TrimPrefix, strings.TrimPrefix.
    assert (Hne : Ascii.eqb c "239" = false).
    { apply Ascii.eqb_neq. intros ->. discriminate. }
    unfold utf8bom. cbn [strings.HasPrefix]. now rewrite Hne. }
  assert (E1 : (if idx =? 0 then bytes.TrimPrefix (String c line) utf8bom
                else String c line) = String c line)
    by (destruct (idx =? 0); [exact Hp | reflexivity]).
  assert (E2 : (if idx =? 0 then bytes.TrimPrefix line utf8bom else line)
               = line).
  { destruct (idx =? 0) eqn:I; [|reflexivity].
    destruct Hb as [Hb|Hb]; [apply Z.eqb_eq in I; contradiction|].
    unfold bytes.TrimPrefix, strings.TrimPrefix. now rewrite Hb. }
  rewrite E1, E2.
  assert (D : utf8.DecodeRune (String c line) = (byte_val c, 1)).
  { unfold utf8.DecodeRune. now rewrite Hc. }
  rewrite (TrimLeftFuncFacts.TrimLeftFunc_step _ _ _ _ _ D), Hs.
  reflexivity.
Qed.

Lemma linesLoop_ok lines i acc out :
  linesLoop lines i acc = (out, None) ->
  out = (acc ++ filter keyed
                  (map (fun il => fst (parseLine (snd il) (fst il)))
                       (number i lines)))%list
  /\ Forall (fun il => err_of (parseLine (snd il) (fst il)) = None)
       (number i lines).
Proof.
  revert i acc. induction lines as [|l rest IH]; intros i acc.
  - intros [= <-]. simpl. now rewrite app_nil_r.
  - unfold linesLoop. cbn [keyValuesFromLines_loop].
    fold (parseLine l i). fold linesLoop.
    destruct (parseLine l i) as [kv [e|]] eqn:P; [discriminate|].
    assert (F0 : err_of (parseLine (snd (i, l)) (fst (i, l))) = None)
      by (cbn [fst snd]; now rewrite P).
    cbn [number map filter fst snd]. rewrite P. cbn [fst].
    unfold keyed at 1.
    destruct (len (Key kv) =? 0); cbn [negb]; intros H;
      apply IH in H as [-> F]; (split; [|now constructor]).
    + reflexivity.
    + now rewrite <- app_assoc.
Qed.

Lemma linesLoop_first_error done l rest i acc e :
  Forall (fun il => err_of (parseLine (snd il) (fst il)) = None)
    (number i done) ->
  err_of (parseLine l (i + Z.of_nat (List.length done))) = Some e ->
  linesLoop (done ++ l :: rest) i acc = ([], Some e).
Proof.
  revert i acc. induction done as [|d done IH]; intros i acc F He.
  - simpl in He. rewrite Z.add_0_r in He.
    unfold linesLoop. cbn [app keyValuesFromLines_loop]. fold (parseLine l i).
    destruct (parseLine l i) as [kv err]. simpl in He. now subst err.
  - cbn [number] in F. inversion F as [|x xs Hd F']; subst.
    cbn [fst snd] in Hd.
    unfold linesLoop. cbn [app keyValuesFromLines_loop].
    fold (parseLine d i). destruct (parseLine d i) as [kv err].
    simpl in Hd. subst err.
    replace (i + Z.of_nat (List.length (d :: done)))
      with (i + 1 + Z.of_nat (List.length done)) in He
      by (cbn [List.length]; lia).
    destruct (len (Key kv) =? 0); now apply IH.
Qed.

(** X5.  The pairs of an env file are those of its lines that have a key,
    in the order of the lines, each line parsed with its index in the file
    (blank lines and comments counted); and no line has failed. *)
Theorem keyValuesFromLines_pairs (content : string) (kvs : list Pair) :
  keyValuesFromLines validator_IsEnvVarName environ content = (kvs, None) ->
  kvs = filter keyed
          (map (fun il =>
                  fst (keyValuesFromLine validator_IsEnvVarName environ
                         (snd il) (fst il)))
               (number 0 (bufio.scanLines content)))
  /\ Forall (fun il =>
               err_of (keyValuesFromLine validator_IsEnvVarName environ
                         (snd il) (fst il)) = None)
       (number 0 (bufio.scanLines content)).
Proof.
  intros H. unfold keyValuesFromLines in H.
  exact (linesLoop_ok _ _ _ _ H).
Qed.

(** X6.  The first line of an env file that fails gives the error of the
    file, and the file gives no pair: not those of the lines before, and
    whatever the lines after. *)
Theorem keyValuesFromLines_first_error (content : string)
  (done : list string) (l : string) (rest : list string) (e : error) :
  bufio.scanLines content = (done ++ l :: rest)%list ->
  Forall (fun il =>
            err_of (keyValuesFromLine validator_IsEnvVarName environ
                      (snd il) (fst il)) = None)
    (number 0 done) ->
  err_of (keyValuesFromLine validator_IsEnvVarName environ l
            (Z.of_nat (List.length done))) = Some e ->
  keyValuesFromLines validator_IsEnvVarName environ content = ([], Some e).
Proof.
  intros Hs F He. unfold keyValuesFromLines. rewrite Hs.
  now apply linesLoop_first_error.
Qed.

(** X7.  Every pair of an env file has a key that is not empty, that the
    validator has accepted, and that holds no [=]. *)
Theorem keyValuesFromLines_keys (content : string) (kvs : list Pair) :
  keyValuesFromLines validator_IsEnvVarName environ content = (kvs, None) ->
  Forall (fun kv =>
            Key kv <> "" /\ validator_IsEnvVarName (Key kv) = None
            /\ inb eq_sign (Key kv) = false) kvs.
Proof.
  intros H. unfold keyValuesFromLines in H.
  apply linesLoop_ok in H as [-> F].
  apply Forall_forall. intros kv Hin. cbn [app] in Hin.
  apply filter_In in Hin as [Hin Hk].
  apply in_map_iff in Hin as ([i l] & E & Hin).
  rewrite Forall_forall in F. specialize (F _ Hin). cbn [fst snd] in *.
  destruct (parseLine l i) as [kv' err] eqn:P. simpl in E, F. subst.
  assert (Hne : Key kv <> "").
  { intros E. unfold keyed in Hk. apply negb_true_iff in Hk.
    apply len_zero in E. congruence. }
  split; [exact Hne|]. exact (keyValuesFromLine_key _ _ _ P Hne).
Qed.

End EnvFile.

Lemma keyValuesFromLine_indent_witness :
  keyValuesFromLine sample_validator sample_environ (String " "%char "FOO=1") 0
  = keyValuesFromLine sample_validator sample_environ "FOO=1" 0.
Proof.
  apply (keyValuesFromLine_indent sample_validator sample_environ " "%char
           "FOO=1" 0); [reflexivity | reflexivity | reflexivity |].
  right. reflexivity.
Defined.

Lemma keyValuesFromLines_pairs_witness :
  [Build_Pair "A" "1"; Build_Pair "FOO" "from-env"]
  = filter keyed
      (map (fun il =>
              fst (keyValuesFromLine sample_validator sample_environ
                     (snd il) (fst il)))
         (number 0 (bufio.scanLines ("A=1" ++ lf ++ "# c" ++ lf ++ "FOO"))))
  /\ Forall (fun il =>
               err_of (keyValuesFromLine sample_validator sample_environ
                         (snd il) (fst il)) = None)
       (number 0 (bufio.scanLines ("A=1" ++ lf ++ "# c" ++ lf ++ "FOO"))).
Proof.
  apply (keyValuesFromLines_pairs sample_validator sample_environ
           ("A=1" ++ lf ++ "# c" ++ lf ++ "FOO")).
  reflexivity.
Defined.

Lemma keyValuesFromLines_first_error_witness :
  keyValuesFromLines sample_validator sample_environ
    ("A=1" ++ lf ++ "=x" ++ lf ++ "B=2")
  = ([], Some (errors.New "invalid name")).
Proof.
  apply (keyValuesFromLines_first_error sample_validator sample_environ
           ("A=1" ++ lf ++ "=x" ++ lf ++ "B=2") ["A=1"] "=x" ["B=2"]).
  - reflexivity.
  - repeat constructor.
  - reflexivity.
Defined.

Lemma keyValuesFromLines_keys_witness :
  Forall (fun kv =>
            Key kv <> "" /\ sample_validator (Key kv) = None
            /\ inb eq_sign (Key kv) = false)
    [Build_Pair "A" "1"; Build_Pair "FOO" "from-env"].
Proof.
  apply (keyValuesFromLines_keys sample_validator sample_environ
           ("A=1" ++ lf ++ "# c" ++ lf ++ "FOO")).
  reflexivity.
Defined.

(** * The first error of a loop *)

Section LoopsFirstError.

Variables A B : Type.
Variable body : A -> list B * option error.
Variable loop : list A -> list B -> list B * option error.

Hypothesis loop_cons : forall a rest acc,
  loop (a :: rest) acc
  = match body a with
    | (_, Some e) => ([], Some e)
    | (more, None) => loop rest (acc ++ more)%list
    end.

(** The loop stops at the first source on which the body fails: the
    sources after it are not looked at. *)
Lemma loop_first_error done a rest acc e :
  Forall (fun d => err_of (body d) = None) done ->
  err_of (body a) = Some e ->
  loop (done ++ a :: rest) acc = ([], Some e).
Proof.
  revert acc. induction done as [|d done IH]; intros acc F He.
  - cbn [app]. rewrite loop_cons. destruct (body a) as [more err].
    simpl in He. now subst err.
  - inversion F as [|x xs Hd F']; subst.
    cbn [app]. rewrite loop_cons. destruct (body d) as [more err].
    simpl in Hd. subst err. now apply IH.
Qed.

End LoopsFirstError.

Section Stages.

Variable ldr_Load : string -> string * option error.
Variable rootLdr_Load : string -> string * option error.
Variable validator_IsEnvVarName : string -> option error.
Variable environ : string -> option string.
Variable filepath_Abs : string -> string * option error.
Variable ioutil_ReadFile : string -> string * option error.
Variable Identity : Type.
Variable age_ParseIdentities : string -> list Identity * option error.
Variable parseSSHIdentity : string -> string -> list Identity * option error.
Variable decryptInlineYAMLWithAge :
  string -> list Identity -> string * option error.
Variable decryptValueWithAge :
  string -> list Identity -> string * option error.

Let identityBody :=
  getAgeIdentities_body rootLdr_Load filepath_Abs Identity
    age_ParseIdentities.
Let explicitLoop :=
  getAgeIdentities_explicit rootLdr_Load filepath_Abs Identity
    age_ParseIdentities.
Let sshLoop :=
  getAgeIdentities_ssh ioutil_ReadFile Identity parseSSHIdentity.
Let identities :=
  getAgeIdentities rootLdr_Load environ filepath_Abs ioutil_ReadFile
    Identity age_ParseIdentities parseSSHIdentity.
Let envBody :=
  keyValuesFromEnvFiles_body ldr_Load validator_IsEnvVarName environ
    Identity decryptValueWithAge.
Let envStage :=
  keyValuesFromEnvFiles ldr_Load validator_IsEnvVarName environ
    Identity decryptValueWithAge.
Let literalBody :=
  keyValuesFromLiteralSources_body Identity decryptInlineYAMLWithAge
    decryptValueWithAge.
Let literalStage :=
  keyValuesFromLiteralSources Identity decryptInlineYAMLWithAge
    decryptValueWithAge.
Let fileBody :=
  keyValuesFromFileSources_body ldr_Load Identity decryptInlineYAMLWithAge
    decryptValueWithAge.
Let fileStage :=
  keyValuesFromFileSources ldr_Load Identity decryptInlineYAMLWithAge
    decryptValueWithAge.

Lemma err_of_one {B : Type} (r : B * option error) :
  err_of (one r) = err_of r.
Proof. reflexivity. Qed.

(** X8.  The literal sources are parsed in order up to the first one that
    fails: its error is returned, with no pair, whatever the sources after
    it. *)
Theorem keyValuesFromLiteralSources_first_error
  (done : list string) (a : string) (rest : list string)
  (ids : list Identity) (e : error) :
  Forall (fun d =>
            err_of (keyValuesFromLiteralSources_body Identity
                      decryptInlineYAMLWithAge decryptValueWithAge d ids)
            = None) done ->
  err_of (keyValuesFromLiteralSources_body Identity
            decryptInlineYAMLWithAge decryptValueWithAge a ids) = Some e ->
  keyValuesFromLiteralSources Identity decryptInlineYAMLWithAge
    decryptValueWithAge (done ++ a :: rest) ids = ([], Some e).
Proof.
  intros F He. fold literalBody in F, He.
  apply (loop_first_error _ _ (fun s => one (literalBody s ids))
           (fun l acc =>
              keyValuesFromLiteralSources_loop Identity
                decryptInlineYAMLWithAge decryptValueWithAge l ids acc));
    [unfold literalBody; loop_equation | exact F | exact He].
Qed.

(** X9.  The same for the file sources. *)
Theorem keyValuesFromFileSources_first_error
  (done : list string) (a : string) (rest : list string)
  (ids : list Identity) (e : error) :
  Forall (fun d =>
            err_of (keyValuesFromFileSources_body ldr_Load Identity
                      decryptInlineYAMLWithAge decryptValueWithAge d ids)
            = None) done ->
  err_of (keyValuesFromFileSources_body ldr_Load Identity
            decryptInlineYAMLWithAge decryptValueWithAge a ids) = Some e ->
  keyValuesFromFileSources ldr_Load Identity decryptInlineYAMLWithAge
    decryptValueWithAge (done ++ a :: rest) ids = ([], Some e).
Proof.
  intros F He. fold fileBody in F, He.
  apply (loop_first_error _ _ (fun s => one (fileBody s ids))
           (fun l acc =>
              keyValuesFromFileSources_loop ldr_Load Identity
                decryptInlineYAMLWithAge decryptValueWithAge l ids acc));
    [unfold fileBody; loop_equation | exact F | exact He].
Qed.

(** X10.  The same for the env files: the pairs of the files read before
    the one that fails are not returned. *)
Theorem keyValuesFromEnvFiles_first_error
  (done : list string) (a : string) (rest : list string)
  (ids : list Identity) (e : error) :
  Forall (fun d =>
            err_of (keyValuesFromEnvFiles_body ldr_Load
                      validator_IsEnvVarName environ Identity
                      decryptValueWithAge d ids) = None) done ->
  err_of (keyValuesFromEnvFiles_body ldr_Load validator_IsEnvVarName
            environ Identity decryptValueWithAge a ids) = Some e ->
  keyValuesFromEnvFiles ldr_Load validator_IsEnvVarName environ Identity
    decryptValueWithAge (done ++ a :: rest) ids = ([], Some e).
Proof.
  intros F He. fold envBody in F, He.
  apply (loop_first_error _ _ (fun p => envBody p ids)
           (fun l acc =>
              keyValuesFromEnvFiles_loop ldr_Load validator_IsEnvVarName
                environ Identity decryptValueWithAge l ids acc));
    [unfold envBody; loop_equation | exact F | exact He].
Qed.

Lemma explicitLoop_equation : forall a rest acc,
  explicitLoop (a :: rest) acc
  = match identityBody a with
    | (_, Some e) => ([], Some e)
    | (more, None) => explicitLoop rest (acc ++ more)%list
    end.
Proof. unfold explicitLoop, identityBody. loop_equation. Qed.

(** X11.  Resolving the identities fails exactly when one of the explicit
    identity sources fails: the SSH keys of the home directory, read or
    not, parsed or not, never make it fail. *)
Theorem getAgeIdentities_fails_iff (sources : list string) :
  err_of (getAgeIdentities rootLdr_Load environ filepath_Abs
            ioutil_ReadFile Identity age_ParseIdentities parseSSHIdentity
            sources) <> None
  <-> exists path,
        In path sources
        /\ err_of (getAgeIdentities_body rootLdr_Load filepath_Abs Identity
                     age_ParseIdentities path) <> None.
Proof.
  fold identities identityBody. unfold identities, getAgeIdentities.
  fold explicitLoop.
  destruct (explicitLoop sources []) as [ids [e|]] eqn:H; simpl.
  - split; [intros _|discriminate].
    apply (loop_err _ _ identityBody explicitLoop) in H;
      [|reflexivity|apply explicitLoop_equation].
    destruct H as (_ & done & a & rest & -> & Ha & _).
    exists a. split; [apply in_or_app; right; now left|]. now rewrite Ha.
  - split; [now intros []|]. intros (path & Hin & Hf). exfalso.
    destruct (loop_fails _ _ identityBody explicitLoop
                ltac:(reflexivity) explicitLoop_equation sources [] path
                Hin Hf) as [e He].
    rewrite He in H. discriminate.
Qed.

(** X12.  The identities resolved are those of the explicit sources, in
    the order of the sources, followed by those of the SSH keys
    [id_rsa] then [id_ed25519] of the home directory that can be read and
    parsed. *)
Theorem getAgeIdentities_order (sources : list string)
  (ids : list Identity) :
  getAgeIdentities rootLdr_Load environ filepath_Abs ioutil_ReadFile
    Identity age_ParseIdentities parseSSHIdentity sources = (ids, None) ->
  exists explicit,
    Forall2 (fun path id =>
               getAgeIdentities_body rootLdr_Load filepath_Abs Identity
                 age_ParseIdentities path = (id, None)) sources explicit
    /\ ids
       = (concat explicit
          ++ flat_map
               (fun path =>
                  match ioutil_ReadFile path with
                  | (content, None) =>
                      match parseSSHIdentity path content with
                      | (sshids, None) => sshids
                      | (_, Some _) => []
                      end
                  | (_, Some _) => []
                  end)
               [(os_Getenv environ "HOME" ++ "/.ssh/id_rsa")%string;
                (os_Getenv environ "HOME" ++ "/.ssh/id_ed25519")%string])%list.
Proof.
  fold identities identityBody. unfold identities, getAgeIdentities.
  fold explicitLoop sshLoop.
  destruct (explicitLoop sources []) as [ids0 [e|]] eqn:H; [discriminate|].
  intros [= <-].
  apply (loop_ok _ _ identityBody explicitLoop) in H;
    [|reflexivity|apply explicitLoop_equation].
  destruct H as (explicit & F & ->). exists explicit. split; [exact F|].
  cbn [flat_map].
  destruct (ioutil_ReadFile (os_Getenv environ "HOME" ++ "/.ssh/id_rsa"))
    as [c1 [e1|]];
    destruct (ioutil_ReadFile
                (os_Getenv environ "HOME" ++ "/.ssh/id_ed25519"))
      as [c2 [e2|]];
    repeat match goal with
      | |- context [parseSSHIdentity ?p ?c] =>
          destruct (parseSSHIdentity p c) as [? [?|]]
      end; cbn [app]; rewrite ?app_nil_r, ?app_assoc; reflexivity.
Qed.

(** X14.  A load that succeeds returns one pair for each literal source and
    one for each file source, after the pairs of the env files: nothing is
    merged or dropped, whatever the keys. *)
Theorem Load_pair_count (args : KvPairSources) (all : list Pair) :
  Load ldr_Load rootLdr_Load validator_IsEnvVarName environ filepath_Abs
    ioutil_ReadFile Identity age_ParseIdentities parseSSHIdentity
    decryptInlineYAMLWithAge decryptValueWithAge args = (all, None) ->
  exists ids envPairs,
    keyValuesFromEnvFiles ldr_Load validator_IsEnvVarName environ Identity
      decryptValueWithAge (EnvSources args) ids = (envPairs, None)
    /\ List.length all
       = (List.length envPairs + List.length (LiteralSources args)
          + List.length (FileSources args))%nat.
Proof.
  unfold Load. fold identities envStage literalStage fileStage.
  destruct (identities (AgeIdentitySources args)) as [ids [e|]];
    [discriminate|].
  destruct (envStage (EnvSources args) ids) as [envPairs [e|]] eqn:E;
    [discriminate|].
  destruct (literalStage (LiteralSources args) ids) as [lits [e|]] eqn:L;
    [discriminate|].
  destruct (fileStage (FileSources args) ids) as [files [e|]] eqn:F;
    [discriminate|].
  intros [= <-]. exists ids, envPairs. split; [exact E|].
  apply literalStage_ok in L. apply fileStage_ok in F.
  apply Forall2_length in L, F.
  cbn [app]. rewrite !length_app. lia.
Qed.

End Stages.

Lemma keyValuesFromLiteralSources_first_error_witness :
  keyValuesFromLiteralSources unit sample_inline sample_whole
    (["x=1"] ++ "novalue" :: ["=also-bad"]) []
  = ([], Some (errors.New
                 "invalid literal source novalue, expected key=value")).
Proof.
  apply (keyValuesFromLiteralSources_first_error unit sample_inline
           sample_whole ["x=1"] "novalue" ["=also-bad"] []).
  - repeat constructor.
  - reflexivity.
Defined.

Lemma keyValuesFromFileSources_first_error_witness :
  keyValuesFromFileSources sample_ldr unit sample_inline sample_whole
    (["k=data.txt"] ++ "missing.txt" :: ["a=b=c"]) []
  = ([], Some (errors.New "open missing.txt: no such file")).
Proof.
  apply (keyValuesFromFileSources_first_error sample_ldr unit sample_inline
           sample_whole ["k=data.txt"] "missing.txt" ["a=b=c"] []).
  - repeat constructor.
  - reflexivity.
Defined.

Lemma keyValuesFromEnvFiles_first_error_witness :
  keyValuesFromEnvFiles sample_ldr sample_validator sample_environ unit
    sample_whole (["app.env"] ++ "missing.env" :: ["app.env"]) []
  = ([], Some (errors.New "open missing.env: no such file")).
Proof.
  apply (keyValuesFromEnvFiles_first_error sample_ldr sample_validator
           sample_environ unit sample_whole ["app.env"] "missing.env"
           ["app.env"] []).
  - repeat constructor.
  - reflexivity.
Defined.

Lemma getAgeIdentities_order_witness :
  exists explicit,
    Forall2 (fun path id => sample_identityBody path = (id, None))
      ["app.env"; "data.txt"] explicit
    /\ [tt; tt]
       = (concat explicit
          ++ flat_map
               (fun path =>
                  match sample_readfile path with
                  | (content, None) =>
                      match sample_ssh path content with
                      | (sshids, None) => sshids
                      | (_, Some _) => []
                      end
                  | (_, Some _) => []
                  end)
               [(os_Getenv sample_environ "HOME" ++ "/.ssh/id_rsa")%string;
                (os_Getenv sample_environ "HOME"
                 ++ "/.ssh/id_ed25519")%string])%list.
Proof.
  apply (getAgeIdentities_order sample_ldr sample_environ sample_abs
           sample_readfile unit sample_parse sample_ssh
           ["app.env"; "data.txt"] [tt; tt]).
  reflexivity.
Defined.

Lemma Load_pair_count_witness :
  exists ids envPairs,
    keyValuesFromEnvFiles sample_ldr sample_validator sample_environ unit
      sample_whole (EnvSources sample_args) ids = (envPairs, None)
    /\ List.length
         [Build_Pair "A" "1"; Build_Pair "FOO" "from-env";
          Build_Pair "x" "1"; Build_Pair "y" "2"; Build_Pair "k" "hello"]
       = (List.length envPairs + List.length (LiteralSources sample_args)
          + List.length (FileSources sample_args))%nat.
Proof.
  apply (Load_pair_count sample_ldr sample_ldr sample_validator
           sample_environ sample_abs sample_readfile unit sample_parse
           sample_ssh sample_inline sample_whole sample_args).
  reflexivity.
Defined.

Lemma Load_error_inv_witness :
  @nil Pair = []
  /\ exists e category inputs,
       errors.Wrap
         (errors.New "invalid literal source novalue, expected key=value")
         "literal sources [x=1 novalue]"
       = errors.Wrap e (category ++ fmt.v_strings inputs)
       /\ ((category = "age identity source files: "
            /\ inputs = AgeIdentitySources sample_args_bad_literal)
           \/ (category = "env source files: "
               /\ inputs = EnvSources sample_args_bad_literal)
           \/ (category = "literal sources "
               /\ inputs = LiteralSources sample_args_bad_literal)
           \/ (category = "file sources: "
               /\ inputs = FileSources sample_args_bad_literal)).
Proof.
  apply (Load_error_inv sample_ldr sample_ldr sample_validator
           sample_environ sample_abs sample_readfile unit sample_parse
           sample_ssh sample_inline sample_whole sample_args_bad_literal).
  reflexivity.
Defined.

(** * Sources that are not encrypted *)

Section Plain.

Variable ldr_Load : string -> string * option error.
Variable validator_IsEnvVarName : string -> option error.
Variable environ : string -> option string.
Variables Identity Identity' : Type.
Variable decryptInlineYAMLWithAge :
  string -> list Identity -> string * option error.
Variable decryptValueWithAge :
  string -> list Identity -> string * option error.
Variable decryptInlineYAMLWithAge' :
  string -> list Identity' -> string * option error.
Variable decryptValueWithAge' :
  string -> list Identity' -> string * option error.

Lemma plain_loop {A B : Type} (body body' : A -> list B * option error)
  (loop loop' : list A -> list B -> list B * option error)
  (sources : list A) :
  (forall acc, loop [] acc = (acc, None)) ->
  (forall acc, loop' [] acc = (acc, None)) ->
  (forall a rest acc,
      loop (a :: rest) acc
      = match body a with
        | (_, Some e) => ([], Some e)
        | (more, None) => loop rest (acc ++ more)%list
        end) ->
  (forall a rest acc,
      loop' (a :: rest) acc
      = match body' a with
        | (_, Some e) => ([], Some e)
        | (more, None) => loop' rest (acc ++ more)%list
        end) ->
  (forall a, In a sources -> body a = body' a) ->
  forall acc, loop sources acc = loop' sources acc.
Proof.
  intros N N' C C' H. induction sources as [|a rest IH]; intros acc.
  - now rewrite N, N'.
  - rewrite C, C', <- (H a (or_introl eq_refl)).
    destruct (body a) as [more [e|]]; [reflexivity|].
    apply IH. intros x Hx. apply H. now right.
Qed.

(** X15.  Literal sources whose keys do not end in [.age] are never
    decrypted: their pairs do not depend on the identities, nor on what
    decryption would do. *)
Theorem keyValuesFromLiteralSources_plain (sources : list string)
  (ids : list Identity) (ids' : list Identity') :
  (forall s, In s sources ->
             strings.HasSuffix (fst (fst (parseLiteralSource s))) ".age"
             = false) ->
  keyValuesFromLiteralSources Identity decryptInlineYAMLWithAge
    decryptValueWithAge sources ids
  = keyValuesFromLiteralSources Identity' decryptInlineYAMLWithAge'
      decryptValueWithAge' sources ids'.
Proof.
  intros H. unfold keyValuesFromLiteralSources.
  apply (plain_loop
           (fun s => one (keyValuesFromLiteralSources_body Identity
                            decryptInlineYAMLWithAge decryptValueWithAge
                            s ids))
           (fun s => one (keyValuesFromLiteralSources_body Identity'
                            decryptInlineYAMLWithAge' decryptValueWithAge'
                            s ids'))
           (fun l acc =>
              keyValuesFromLiteralSources_loop Identity
                decryptInlineYAMLWithAge decryptValueWithAge l ids acc)
           (fun l acc =>
              keyValuesFromLiteralSources_loop Identity'
                decryptInlineYAMLWithAge' decryptValueWithAge' l ids' acc));
    try reflexivity; try loop_equation.
  intros s Hin. specialize (H s Hin).
  unfold keyValuesFromLiteralSources_body.
  destruct (parseLiteralSource s) as [[k v] [e|]]; [reflexivity|].
  simpl in H. now rewrite H.
Qed.

(** X16.  File sources whose paths do not end in [.age] are never
    decrypted. *)
Theorem keyValuesFromFileSources_plain (sources : list string)
  (ids : list Identity) (ids' : list Identity') :
  (forall s, In s sources ->
             strings.HasSuffix (snd (fst (parseFileSource s))) ".age"
             = false) ->
  keyValuesFromFileSources ldr_Load Identity decryptInlineYAMLWithAge
    decryptValueWithAge sources ids
  = keyValuesFromFileSources ldr_Load Identity' decryptInlineYAMLWithAge'
      decryptValueWithAge' sources ids'.
Proof.
  intros H. unfold keyValuesFromFileSources.
  apply (plain_loop
           (fun s => one (keyValuesFromFileSources_body ldr_Load Identity
                            decryptInlineYAMLWithAge decryptValueWithAge
                            s ids))
           (fun s => one (keyValuesFromFileSources_body ldr_Load Identity'
                            decryptInlineYAMLWithAge' decryptValueWithAge'
                            s ids'))
           (fun l acc =>
              keyValuesFromFileSources_loop ldr_Load Identity
                decryptInlineYAMLWithAge decryptValueWithAge l ids acc)
           (fun l acc =>
              keyValuesFromFileSources_loop ldr_Load Identity'
                decryptInlineYAMLWithAge' decryptValueWithAge' l ids' acc));
    try reflexivity; try loop_equation.
  intros s Hin. specialize (H s Hin).
  unfold keyValuesFromFileSources_body.
  destruct (parseFileSource s) as [[k fPath] [e|]]; [reflexivity|].
  simpl in H. rewrite H.
  now destruct (ldr_Load fPath) as [content [e|]].
Qed.

(** X17.  Env files whose paths do not end in [.age] are never
    decrypted. *)
Theorem keyValuesFromEnvFiles_plain (paths : list string)
  (ids : list Identity) (ids' : list Identity') :
  (forall p, In p paths -> strings.HasSuffix p ".age" = false) ->
  keyValuesFromEnvFiles ldr_Load validator_IsEnvVarName environ Identity
    decryptValueWithAge paths ids
  = keyValuesFromEnvFiles ldr_Load validator_IsEnvVarName environ Identity'
      decryptValueWithAge' paths ids'.
Proof.
  intros H. unfold keyValuesFromEnvFiles.
  apply (plain_loop
           (fun p => keyValuesFromEnvFiles_body ldr_Load
                       validator_IsEnvVarName environ Identity
                       decryptValueWithAge p ids)
           (fun p => keyValuesFromEnvFiles_body ldr_Load
                       validator_IsEnvVarName environ Identity'
                       decryptValueWithAge' p ids')
           (fun l acc =>
              keyValuesFromEnvFiles_loop ldr_Load validator_IsEnvVarName
                environ Identity decryptValueWithAge l ids acc)
           (fun l acc =>
              keyValuesFromEnvFiles_loop ldr_Load validator_IsEnvVarName
                environ Identity' decryptValueWithAge' l ids' acc));
    try reflexivity; try loop_equation.
  intros p Hin. specialize (H p Hin).
  unfold keyValuesFromEnvFiles_body. now rewrite H.
Qed.

End Plain.

Lemma keyValuesFromLiteralSources_plain_witness :
  keyValuesFromLiteralSources unit sample_inline sample_whole
    ["x=1"; "y.yaml=2"] []
  = keyValuesFromLiteralSources unit sample_no_key sample_no_key
      ["x=1"; "y.yaml=2"] [tt].
Proof.
  apply (keyValuesFromLiteralSources_plain unit unit sample_inline
           sample_whole sample_no_key sample_no_key ["x=1"; "y.yaml=2"]
           [] [tt]).
  intros s [<- | [<- | []]]; reflexivity.
Defined.

Lemma keyValuesFromFileSources_plain_witness :
  keyValuesFromFileSources sample_ldr unit sample_inline sample_whole
    ["k=data.txt"; "data.txt"] []
  = keyValuesFromFileSources sample_ldr unit sample_no_key sample_no_key
      ["k=data.txt"; "data.txt"] [tt].
Proof.
  apply (keyValuesFromFileSources_plain sample_ldr unit unit sample_inline
           sample_whole sample_no_key sample_no_key
           ["k=data.txt"; "data.txt"] [] [tt]).
  intros s [<- | [<- | []]]; reflexivity.
Defined.

Lemma keyValuesFromEnvFiles_plain_witness :
  keyValuesFromEnvFiles sample_ldr sample_validator sample_environ unit
    sample_whole ["app.env"] []
  = keyValuesFromEnvFiles sample_ldr sample_validator sample_environ unit
      sample_no_key ["app.env"] [tt].
Proof.
  apply (keyValuesFromEnvFiles_plain sample_ldr sample_validator
           sample_environ unit unit sample_whole sample_no_key ["app.env"]
           [] [tt]).
  intros p [<- | []]; reflexivity.
Defined.

(** * The key of an encrypted source *)

Section AgeKeyShape.

Variable ldr_Load : string -> string * option error.
Variable Identity : Type.
Variable decryptInlineYAMLWithAge :
  string -> list Identity -> string * option error.
Variable decryptValueWithAge :
  string -> list Identity -> string * option error.

(** X18.  The pair of a literal source whose key ends in [.age] has for key
    the parsed key without all its trailing bytes among [.], [a], [g] and
    [e]: the key of the pair ends with none of them. *)
Theorem literal_age_key_shape (s k v : string) (ids : list Identity)
  (kv : Pair) :
  parseLiteralSource s = (k, v, None) ->
  strings.HasSuffix k ".age" = true ->
  keyValuesFromLiteralSources_body Identity decryptInlineYAMLWithAge
    decryptValueWithAge s ids = (kv, None) ->
  last_in (Key kv) ".age" = false
  /\ exists r, k = Key kv ++ r /\ all_in r ".age" = true.
Proof.
  intros H Hs. unfold keyValuesFromLiteralSources_body. rewrite H, Hs.
  destruct (TrimFacts.TrimRight_decomp k ".age") as (r & E & Hr & Hl).
  destruct (if _ : bool then _ else _) as [content [e|]]; [discriminate|].
  intros [= <-]. cbn [Key]. split; [exact Hl|]. now exists r.
Qed.

(** X19.  The same for a file source whose path ends in [.age], whether
    its key ends in [.age] or not. *)
Theorem file_age_key_shape (s k fPath : string) (ids : list Identity)
  (kv : Pair) :
  parseFileSource s = (k, fPath, None) ->
  strings.HasSuffix fPath ".age" = true ->
  keyValuesFromFileSources_body ldr_Load Identity decryptInlineYAMLWithAge
    decryptValueWithAge s ids = (kv, None) ->
  last_in (Key kv) ".age" = false
  /\ exists r, k = Key kv ++ r /\ all_in r ".age" = true.
Proof.
  intros H Hs. unfold keyValuesFromFileSources_body. rewrite H.
  destruct (ldr_Load fPath) as [content [e|]]; [discriminate|].
  rewrite Hs.
  destruct (TrimFacts.TrimRight_decomp k ".age") as (r & E & Hr & Hl).
  destruct (if _ : bool then _ else _) as [content' [e|]]; [discriminate|].
  intros [= <-]. cbn [Key]. split; [exact Hl|]. now exists r.
Qed.

End AgeKeyShape.

Lemma literal_age_key_shape_witness :
  last_in (Key (Build_Pair "im" "whole(secret)")) ".age" = false
  /\ exists r,
       "image.age" = Key (Build_Pair "im" "whole(secret)") ++ r
       /\ all_in r ".age" = true.
Proof.
  apply (literal_age_key_shape unit sample_inline sample_whole
           "image.age=secret" "image.age" "secret" []);
    reflexivity.
Defined.

Lemma file_age_key_shape_witness :
  last_in (Key (Build_Pair "im" "whole(ciphertext)")) ".age" = false
  /\ exists r,
       "image" = Key (Build_Pair "im" "whole(ciphertext)") ++ r
       /\ all_in r ".age" = true.
Proof.
  apply (file_age_key_shape sample_ldr unit sample_inline sample_whole
           "image=conf/image.age" "image" "conf/image.age" []);
    reflexivity.
Defined.

Lemma literal_age_key_witness :
  keyValuesFromLiteralSources_body unit sample_inline sample_whole
    "db.yaml.age=c" []
  = let '(content, err) :=
      if strings.HasSuffix "db.yaml" ".yaml"
         || strings.HasSuffix "db.yaml" ".yml"
      then sample_inline "c" []
      else sample_whole "c" [] in
    match err with
    | Some e => (blank, Some e)
    | None => (Build_Pair "db.yaml" content, None)
    end.
Proof.
  apply (literal_age_key unit sample_inline sample_whole "db.yaml.age=c"
           "db.yaml" "c" []); reflexivity.
Defined.

Lemma file_age_key_witness :
  keyValuesFromFileSources_body sample_ldr unit sample_inline sample_whole
    "token.age=conf/image.age" []
  = let '(content, err) :=
      if (strings.HasSuffix "token" ".yaml"
          || strings.HasSuffix "token" ".yml")
         && negb (bytes.HasPrefix "ciphertext" armor.Header)
      then sample_inline "ciphertext" []
      else sample_whole "ciphertext" [] in
    match err with
    | Some e => (blank, Some e)
    | None => (Build_Pair "token" content, None)
    end.
Proof.
  apply (file_age_key sample_ldr unit sample_inline sample_whole
           "token.age=conf/image.age" "token" "conf/image.age"
           "ciphertext" []); reflexivity.
Defined.
